(** * sqlpie: find and replace in SQL dumps that hold PHP-serialized strings

    A shallow embedding of [bin/sqlpie.js].  The script is made of regular
    expressions, so the development starts with the part of the ECMAScript
    regular expression semantics that the script relies on (pattern syntax,
    the backtracking matcher, [exec], [match], [test], [replace] and the
    [$]-patterns of replacement strings), then gives the script's functions
    one by one, and finally the properties of the script.

    Strings are sequences of UTF-16 code units in JavaScript.  Here a
    character is an [ascii], a code unit below 256, and a document is a
    [string] of them. *)

From Stdlib Require Import Ascii String NArith Lia DecimalString.
From stdpp Require Import gmap strings list.

Local Open Scope char_scope.
#[local] Arguments String.append !s1 s2 : simpl nomatch.

(** ** Characters and strings *)

Definition code (c : ascii) : N := N_of_ascii c.

(** The double quote, code unit 34. *)
Definition dq : ascii := "034".

Definition between (lo hi : N) (c : ascii) : bool :=
  (lo <=? code c)%N && (code c <=? hi)%N.

Definition is_digit (c : ascii) : bool := between 48 57 c.

Definition is_word (c : ascii) : bool :=
  between 97 122 c || between 65 90 c || is_digit c || Ascii.eqb c "_".

(** WhiteSpace and LineTerminator code units below 256. *)
Definition is_space (c : ascii) : bool :=
  between 9 13 c || Ascii.eqb c " " || (code c =? 160)%N.

Definition is_line_terminator (c : ascii) : bool :=
  (code c =? 10)%N || (code c =? 13)%N.

Definition digit_value (c : ascii) : N := (code c - 48)%N.

(** [s.length] *)
Fixpoint slen (s : string) : nat :=
  match s with
  | EmptyString => 0
  | String _ s' => S (slen s')
  end.

Fixpoint take (n : nat) (s : string) : string :=
  match n, s with
  | S n', String c s' => String c (take n' s')
  | _, _ => EmptyString
  end.

(** [consumed a b]: the text between two positions of one input, given by
    the suffix [a] at the first position and the suffix [b] at the second. *)
Definition consumed (a b : string) : string := take (slen a - slen b) a.

Definition is_empty (s : string) : bool :=
  match s with EmptyString => true | _ => false end.

(** ** Errors

    What the script can throw, the error value its first stage passes to the
    final callback, and [Unsupported] for patterns outside the syntax modelled
    here (about which the embedding says nothing). *)

Inductive error :=
| SyntaxError
| TypeError
| MissingSql
| IoError
| Unsupported.

Inductive result (A : Type) :=
| Ok (a : A)
| Throw (e : error).
Arguments Ok {A} a.
Arguments Throw {A} e.

Definition rbind {A B} (r : result A) (f : A -> result B) : result B :=
  match r with
  | Ok a => f a
  | Throw e => Throw e
  end.

Notation "x <- r ;; k" := (rbind r (fun x => k))
  (at level 100, r at next level, right associativity).

Fixpoint mapM {A B} (f : A -> result B) (l : list A) : result (list B) :=
  match l with
  | [] => Ok []
  | a :: l' => b <- f a ;; bs <- mapM f l' ;; Ok (b :: bs)
  end.

(** ** Regular expressions: syntax *)

Inductive cclass := Digit | Word | Space.

Inductive citem :=
| IChar (c : ascii)
| IRange (lo hi : ascii)
| IClass (k : cclass) (positive : bool).

Inductive cpred :=
| PChar (c : ascii)
| PDot
| PClass (k : cclass) (positive : bool)
| PSet (positive : bool) (items : list citem).

Inductive regex :=
| Empty
| One (p : cpred)
| Bol
| Eol
| Seq (r1 r2 : regex)
| Alt (r1 r2 : regex)
| Star (greedy : bool) (r : regex)
| Plus (greedy : bool) (r : regex)
| Opt (greedy : bool) (r : regex)
| Group (i : nat) (r : regex).

Definition in_class (k : cclass) (c : ascii) : bool :=
  match k with
  | Digit => is_digit c
  | Word => is_word c
  | Space => is_space c
  end.

Definition in_item (c : ascii) (i : citem) : bool :=
  match i with
  | IChar a => Ascii.eqb a c
  | IRange lo hi => between (code lo) (code hi) c
  | IClass k positive => Bool.eqb (in_class k c) positive
  end.

Definition cmatch (p : cpred) (c : ascii) : bool :=
  match p with
  | PChar a => Ascii.eqb a c
  | PDot => negb (is_line_terminator c)
  | PClass k positive => Bool.eqb (in_class k c) positive
  | PSet positive items => Bool.eqb (existsb (in_item c) items) positive
  end.

Fixpoint groups_of (r : regex) : list nat :=
  match r with
  | Empty | One _ | Bol | Eol => []
  | Seq r1 r2 | Alt r1 r2 => groups_of r1 ++ groups_of r2
  | Star _ r' | Plus _ r' | Opt _ r' => groups_of r'
  | Group i r' => i :: groups_of r'
  end.

(** ** Regular expressions: the backtracking matcher

    A matcher state is a position in the input, kept as the character just
    before it and the suffix after it, together with the captures made so
    far.  Matchers are written in continuation-passing style as in the
    language specification: [m r x c] tries [r] at [x] and hands every way
    of matching it, in priority order, to [c] until [c] succeeds. *)

Record state := State {
  prev : option ascii;
  rest : string;
  caps : list (nat * string)
}.

Definition cont := state -> option state.

Definition set_cap (i : nat) (v : string) (cs : list (nat * string)) :=
  (i, v) :: List.filter (fun e => negb (Nat.eqb (fst e) i)) cs.

Definition get_cap (cs : list (nat * string)) (i : nat) : option string :=
  match List.find (fun e => Nat.eqb (fst e) i) cs with
  | Some e => Some (snd e)
  | None => None
  end.

Definition clear_caps (r : regex) (x : state) : state :=
  State (prev x) (rest x)
    (List.filter (fun e => negb (existsb (Nat.eqb (fst e)) (groups_of r))) (caps x)).

Definition at_bol (multiline : bool) (x : state) : bool :=
  match prev x with
  | None => true
  | Some c => multiline && is_line_terminator c
  end.

Definition at_eol (multiline : bool) (x : state) : bool :=
  match rest x with
  | EmptyString => true
  | String c _ => multiline && is_line_terminator c
  end.

(** RepeatMatcher with no upper bound and lower bound 0.  An iteration that
    consumes nothing is rejected, so every iteration moves forward and
    [fuel], one more than the number of characters left, is never used up. *)
Fixpoint repeat (mr : state -> cont -> option state) (clr : state -> state)
    (greedy : bool) (fuel : nat) (x : state) (c : cont) : option state :=
  match fuel with
  | O => c x
  | S n =>
    let d := fun y =>
      if Nat.eqb (slen (rest y)) (slen (rest x)) then None
      else repeat mr clr greedy n y c in
    if greedy then
      match mr (clr x) d with
      | Some z => Some z
      | None => c x
      end
    else
      match c x with
      | Some z => Some z
      | None => mr (clr x) d
      end
  end.

Fixpoint m (multiline : bool) (r : regex) (x : state) (c : cont) : option state :=
  match r with
  | Empty => c x
  | One p =>
    match rest x with
    | String ch s => if cmatch p ch then c (State (Some ch) s (caps x)) else None
    | EmptyString => None
    end
  | Bol => if at_bol multiline x then c x else None
  | Eol => if at_eol multiline x then c x else None
  | Seq r1 r2 => m multiline r1 x (fun y => m multiline r2 y c)
  | Alt r1 r2 =>
    match m multiline r1 x c with
    | Some z => Some z
    | None => m multiline r2 x c
    end
  | Star g r' =>
    repeat (m multiline r') (clear_caps r') g (S (slen (rest x))) x c
  | Plus g r' =>
    m multiline r' (clear_caps r' x) (fun y =>
      repeat (m multiline r') (clear_caps r') g (S (slen (rest y))) y c)
  | Opt g r' =>
    let d := fun y =>
      if Nat.eqb (slen (rest y)) (slen (rest x)) then None else c y in
    if g then
      match m multiline r' (clear_caps r' x) d with
      | Some z => Some z
      | None => c x
      end
    else
      match c x with
      | Some z => Some z
      | None => m multiline r' (clear_caps r' x) d
      end
  | Group i r' =>
    m multiline r' x (fun y =>
      c (State (prev y) (rest y)
           (set_cap i (consumed (rest x) (rest y)) (caps y))))
  end.

(** ** Regular expressions: parsing a pattern

    [new RegExp(pattern)] for these pattern constructs: characters,
    [.], [\d \D \w \W \s \S], control and identity escapes, character classes
    with ranges, [^] and [$], capturing and non-capturing groups, [|], and the
    quantifiers [*], [+], [?] with their lazy forms.  Braced quantifiers,
    back references, look-around, [\b] and the other letter escapes are
    answered with [Unsupported]. *)

Inductive schar :=
| SBar | SOpen | SClose | SBracket | SBackslash | SDot | SCaret | SDollar
| SStar | SPlus | SQuest | SBrace | SLit.

Definition syntax_char (c : ascii) : schar :=
  if Ascii.eqb c "|" then SBar
  else if Ascii.eqb c "(" then SOpen
  else if Ascii.eqb c ")" then SClose
  else if Ascii.eqb c "[" then SBracket
  else if Ascii.eqb c "\" then SBackslash
  else if Ascii.eqb c "." then SDot
  else if Ascii.eqb c "^" then SCaret
  else if Ascii.eqb c "$" then SDollar
  else if Ascii.eqb c "*" then SStar
  else if Ascii.eqb c "+" then SPlus
  else if Ascii.eqb c "?" then SQuest
  else if Ascii.eqb c "{" then SBrace
  else SLit.

Inductive fkind := FTop | FCapture (i : nat) | FNonCapture.

(** What may follow the last term: nothing, a quantifier, or a lazy mark. *)
Inductive qstate := QNone | QAtom | QQuantified.

(** An open group (or the whole pattern): the alternatives already closed by
    [|] and the terms of the open alternative, both last first. *)
Record frame := Frame {
  f_kind : fkind;
  f_alts : list regex;
  f_terms : list regex;
  f_q : qstate
}.

Fixpoint seq_of (l : list regex) : regex :=
  match l with
  | [] => Empty
  | [r] => r
  | r :: l' => Seq r (seq_of l')
  end.

Fixpoint alt_of (l : list regex) : regex :=
  match l with
  | [] => Empty
  | [r] => r
  | r :: l' => Alt r (alt_of l')
  end.

Definition frame_regex (f : frame) : regex :=
  alt_of (rev (seq_of (rev (f_terms f)) :: f_alts f)).

Definition new_frame (k : fkind) : frame := Frame k [] [] QNone.

Definition push_atom (a : regex) (f : frame) : frame :=
  Frame (f_kind f) (f_alts f) (a :: f_terms f) QAtom.

Definition push_assertion (a : regex) (f : frame) : frame :=
  Frame (f_kind f) (f_alts f) (a :: f_terms f) QNone.

Definition next_alt (f : frame) : frame :=
  Frame (f_kind f) (seq_of (rev (f_terms f)) :: f_alts f) [] QNone.

Definition close_group (f : frame) : regex :=
  match f_kind f with
  | FCapture i => Group i (frame_regex f)
  | _ => frame_regex f
  end.

Definition quantifier (q : schar) (a : regex) : regex :=
  match q with
  | SStar => Star true a
  | SPlus => Plus true a
  | _ => Opt true a
  end.

Definition make_lazy (a : regex) : result regex :=
  match a with
  | Star _ r => Ok (Star false r)
  | Plus _ r => Ok (Plus false r)
  | Opt _ r => Ok (Opt false r)
  | _ => Throw SyntaxError
  end.

(** A quantifier with nothing to repeat is a SyntaxError. *)
Definition quantify (q : schar) (f : frame) : result frame :=
  match f_q f, f_terms f with
  | QAtom, a :: ts =>
    Ok (Frame (f_kind f) (f_alts f) (quantifier q a :: ts) QQuantified)
  | QQuantified, a :: ts =>
    match q with
    | SQuest =>
      a' <- make_lazy a ;;
      Ok (Frame (f_kind f) (f_alts f) (a' :: ts) QNone)
    | _ => Throw SyntaxError
    end
  | _, _ => Throw SyntaxError
  end.

Definition control_escape (e : ascii) : option ascii :=
  if Ascii.eqb e "n" then Some "010"
  else if Ascii.eqb e "r" then Some "013"
  else if Ascii.eqb e "t" then Some "009"
  else if Ascii.eqb e "f" then Some "012"
  else if Ascii.eqb e "v" then Some "011"
  else None.

Definition class_of_escape (e : ascii) : option (cclass * bool) :=
  if Ascii.eqb e "d" then Some (Digit, true)
  else if Ascii.eqb e "D" then Some (Digit, false)
  else if Ascii.eqb e "w" then Some (Word, true)
  else if Ascii.eqb e "W" then Some (Word, false)
  else if Ascii.eqb e "s" then Some (Space, true)
  else if Ascii.eqb e "S" then Some (Space, false)
  else None.

(** [\e] outside a character class. *)
Definition atom_escape (e : ascii) : result regex :=
  match class_of_escape e with
  | Some (k, positive) => Ok (One (PClass k positive))
  | None =>
    match control_escape e with
    | Some c => Ok (One (PChar c))
    | None => if is_word e then Throw Unsupported else Ok (One (PChar e))
    end
  end.

(** [\e] inside a character class, where [\b] is the backspace. *)
Definition class_escape (e : ascii) : result citem :=
  match class_of_escape e with
  | Some (k, positive) => Ok (IClass k positive)
  | None =>
    match control_escape e with
    | Some c => Ok (IChar c)
    | None =>
      if Ascii.eqb e "b" then Ok (IChar "008")
      else if is_word e then Throw Unsupported else Ok (IChar e)
    end
  end.

(** An open character class: its items (last first), the atom that may still
    start a range, and whether the dash of that range has been read. *)
Record cstate := CState {
  c_positive : bool;
  c_items : list citem;
  c_last : option citem;
  c_dash : bool
}.

Definition class_atom (a : citem) (cs : cstate) : result cstate :=
  match c_last cs with
  | Some l =>
    if c_dash cs then
      match l, a with
      | IChar lo, IChar hi =>
        if (code lo <=? code hi)%N
        then Ok (CState (c_positive cs) (IRange lo hi :: c_items cs) None false)
        else Throw SyntaxError
      | _, _ => Throw Unsupported
      end
    else Ok (CState (c_positive cs) (l :: c_items cs) (Some a) false)
  | None => Ok (CState (c_positive cs) (c_items cs) (Some a) false)
  end.

Definition class_dash (cs : cstate) : result cstate :=
  match c_last cs, c_dash cs with
  | Some l, false => Ok (CState (c_positive cs) (c_items cs) (Some l) true)
  | _, _ => class_atom (IChar "-") cs
  end.

Definition class_close (cs : cstate) : cpred :=
  PSet (c_positive cs)
    (rev ((if c_dash cs then [IChar "-"] else [])
          ++ match c_last cs with Some l => [l] | None => [] end
          ++ c_items cs)).

Inductive pmode := MNormal | MClass (cs : cstate).

(** [n] is the number of capturing groups opened so far; groups are numbered
    by their opening parenthesis, from 1. *)
Fixpoint parse_loop (s : string) (n : nat) (cur : frame) (stack : list frame)
    (mode : pmode) : result (regex * nat) :=
  match mode with
  | MClass cs =>
    match s with
    | EmptyString => Throw SyntaxError
    | String c s' =>
      if Ascii.eqb c "]" then
        parse_loop s' n (push_atom (One (class_close cs)) cur) stack MNormal
      else if Ascii.eqb c "\" then
        match s' with
        | EmptyString => Throw SyntaxError
        | String e s'' =>
          a <- class_escape e ;;
          cs' <- class_atom a cs ;;
          parse_loop s'' n cur stack (MClass cs')
        end
      else if Ascii.eqb c "-" then
        cs' <- class_dash cs ;; parse_loop s' n cur stack (MClass cs')
      else
        cs' <- class_atom (IChar c) cs ;; parse_loop s' n cur stack (MClass cs')
    end
  | MNormal =>
    match s with
    | EmptyString =>
      match stack with
      | [] => Ok (frame_regex cur, n)
      | _ => Throw SyntaxError
      end
    | String c s' =>
      match syntax_char c with
      | SBar => parse_loop s' n (next_alt cur) stack MNormal
      | SOpen =>
        match s' with
        | String "?" (String ":" s'') =>
          parse_loop s'' n (new_frame FNonCapture) (cur :: stack) MNormal
        | String "?" _ => Throw Unsupported
        | _ => parse_loop s' (S n) (new_frame (FCapture (S n))) (cur :: stack) MNormal
        end
      | SClose =>
        match stack with
        | [] => Throw SyntaxError
        | parent :: stack' =>
          parse_loop s' n (push_atom (close_group cur) parent) stack' MNormal
        end
      | SBracket =>
        match s' with
        | String "^" s'' => parse_loop s'' n cur stack (MClass (CState false [] None false))
        | _ => parse_loop s' n cur stack (MClass (CState true [] None false))
        end
      | SBackslash =>
        match s' with
        | EmptyString => Throw SyntaxError
        | String e s'' =>
          a <- atom_escape e ;; parse_loop s'' n (push_atom a cur) stack MNormal
        end
      | SDot => parse_loop s' n (push_atom (One PDot) cur) stack MNormal
      | SCaret => parse_loop s' n (push_assertion Bol cur) stack MNormal
      | SDollar => parse_loop s' n (push_assertion Eol cur) stack MNormal
      | SStar | SPlus | SQuest =>
        f <- quantify (syntax_char c) cur ;; parse_loop s' n f stack MNormal
      | SBrace =>
        match s' with
        | String d _ =>
          if is_digit d then Throw Unsupported
          else parse_loop s' n (push_atom (One (PChar c)) cur) stack MNormal
        | EmptyString => parse_loop s' n (push_atom (One (PChar c)) cur) stack MNormal
        end
      | SLit => parse_loop s' n (push_atom (One (PChar c)) cur) stack MNormal
      end
    end
  end.

Definition parse (pattern : string) : result (regex * nat) :=
  parse_loop pattern 0 (new_frame FTop) [] MNormal.

(** ** Regular expression objects and the string methods that take them *)

Record RegExp := MkRegExp {
  re_ast : regex;
  re_groups : nat;
  re_global : bool;
  re_multiline : bool
}.

(** [new RegExp(pattern, flags)] with [g] and [m] as the possible flags. *)
Definition newRegExp (pattern : string) (global multiline : bool) : result RegExp :=
  p <- parse pattern ;; Ok (MkRegExp (fst p) (snd p) global multiline).

(** A successful match: the suffix of the input at the index of the match and
    the matcher's final state. *)
Record mresult := MResult { m_start : string; m_end : state }.

Definition matched (r : mresult) : string :=
  consumed (m_start r) (rest (m_end r)).

Definition captures (n : nat) (r : mresult) : list (option string) :=
  List.map (get_cap (caps (m_end r))) (seq 1 n).

(** The search loop of [exec]: try the matcher at each index in turn. *)
Fixpoint search (multiline : bool) (r : regex) (p : option ascii) (s : string)
    : option mresult :=
  match m multiline r (State p s []) Some with
  | Some y => Some (MResult s y)
  | None =>
    match s with
    | EmptyString => None
    | String c s' => search multiline r (Some c) s'
    end
  end.

(** Repeated [exec] of a global expression.  After an empty match the next
    search starts one character further; otherwise at the end of the match.
    Every round moves forward, so [fuel] (one more than the characters left)
    does not run out. *)
Fixpoint search_all (fuel : nat) (multiline : bool) (r : regex)
    (p : option ascii) (s : string) : list mresult :=
  match fuel with
  | O => []
  | S n =>
    match search multiline r p s with
    | None => []
    | Some res =>
      let y := m_end res in
      res ::
      (if Nat.eqb (slen (m_start res)) (slen (rest y)) then
         match rest y with
         | EmptyString => []
         | String c s' => search_all n multiline r (Some c) s'
         end
       else search_all n multiline r (prev y) (rest y))
    end
  end.

Definition exec (re : RegExp) (s : string) : option mresult :=
  search (re_multiline re) (re_ast re) None s.

Definition exec_all (re : RegExp) (s : string) : list mresult :=
  search_all (S (slen s)) (re_multiline re) (re_ast re) None s.

(** [re.test(s)] for an expression without the [g] flag. *)
Definition test (re : RegExp) (s : string) : bool :=
  match exec re s with Some _ => true | None => false end.

(** [s.match(re)]: with [g], every matched text, or null when there is none;
    without [g], the matched text followed by the captures, or null. *)
Definition match_global (re : RegExp) (s : string) : option (list string) :=
  match exec_all re s with
  | [] => None
  | rs => Some (List.map matched rs)
  end.

Definition match_first (re : RegExp) (s : string) : option (list (option string)) :=
  match exec re s with
  | Some r => Some (Some (matched r) :: captures (re_groups re) r)
  | None => None
  end.

(** GetSubstitution: expand the [$]-patterns of a replacement string.
    [before] and [after] are the parts of the input left and right of the
    match; [$n] and [$nn] name a capture when the expression has that many
    groups and stand for themselves otherwise. *)
Definition capture_text (cs : list (option string)) (i : N) : string :=
  match List.nth_error cs (N.to_nat i - 1) with
  | Some (Some v) => v
  | _ => EmptyString
  end.

Fixpoint GetSubstitution (matched_ before after : string)
    (cs : list (option string)) (template : string) : string :=
  let go := GetSubstitution matched_ before after cs in
  let count := N.of_nat (length cs) in
  match template with
  | EmptyString => EmptyString
  | String c t =>
    if negb (Ascii.eqb c "$") then String c (go t) else
    match t with
    | EmptyString => String c EmptyString
    | String d1 t1 =>
      if Ascii.eqb d1 "$" then String "$" (go t1)
      else if Ascii.eqb d1 "&" then matched_ +:+ go t1
      else if Ascii.eqb d1 "`" then before +:+ go t1
      else if Ascii.eqb d1 "'" then after +:+ go t1
      else if is_digit d1 then
        let one :=
          if (1 <=? digit_value d1)%N && (digit_value d1 <=? count)%N
          then capture_text cs (digit_value d1) +:+ go t1
          else String c (String d1 (go t1)) in
        match t1 with
        | String d2 t2 =>
          if is_digit d2 then
            let index := (10 * digit_value d1 + digit_value d2)%N in
            if (count <? index)%N then one
            else if (1 <=? index)%N then capture_text cs index +:+ go t2
            else String c (String d1 (String d2 (go t2)))
          else one
        | EmptyString => one
        end
      else String c (go t)
    end
  end.

(** The text of [s.replace(re, template)] given the matches to replace;
    [cur] is the suffix of the input not yet copied. *)
Fixpoint splice (input cur : string) (n : nat) (template : string)
    (rs : list mresult) : string :=
  match rs with
  | [] => cur
  | r :: rs' =>
    consumed cur (m_start r)
    +:+ GetSubstitution (matched r) (consumed input (m_start r))
          (rest (m_end r)) (captures n r) template
    +:+ splice input (rest (m_end r)) n template rs'
  end.

(** [s.replace(re, template)]: every match with [g], the first one without. *)
Definition str_replace (s : string) (re : RegExp) (template : string) : string :=
  let rs :=
    if re_global re then exec_all re s
    else match exec re s with Some r => [r] | None => [] end in
  splice s s (re_groups re) template rs.

(** Decimal numbers: [parseInt] on a string that starts with digits, and the
    conversion of a number to a string.  Numbers are doubles in JavaScript:
    a whole number up to 2^53 - 1 ([safe_integer] below) is held as it is,
    [parseInt] then gives the number that the digits write and the
    conversion gives its decimal digits.  Above that the script rounds
    ([parseInt]) and, from 10^21 on, prints an exponent; [N] does not
    follow it there, and a statement that depends on such a number carries
    the bound [safe_integer]. *)
Fixpoint parseInt_from (acc : N) (s : string) : N :=
  match s with
  | String c s' =>
    if is_digit c then parseInt_from (10 * acc + digit_value c)%N s' else acc
  | EmptyString => acc
  end.

Definition parseInt (s : string) : N := parseInt_from 0 s.

Definition toString (n : N) : string := NilEmpty.string_of_uint (N.to_uint n).

(** ** The script: scanning *)

Definition q : string := String dq EmptyString.

(** The regular expression literals of the script, written here with [Q]
    for the double quote.  [re]: [/[;{}]s:(\d+):Q([^Q]+)Q;/] *)
Definition delimiter : cpred := PSet true [IChar ";"; IChar "{"; IChar "}"].
Definition digit : cpred := PClass Digit true.
Definition not_quote : cpred := PSet false [IChar dq].

Definition re_pattern : regex :=
  seq_of [One delimiter; One (PChar "s"); One (PChar ":");
          Group 1 (Plus true (One digit));
          One (PChar ":"); One (PChar dq);
          Group 2 (Plus true (One not_quote));
          One (PChar dq); One (PChar ";")].

(** [re2]: [re] between [^] and [$], with a dot for the delimiter and a
    starred dot in place of [[^Q]+] in the second group. *)
Definition re2_pattern : regex :=
  seq_of [Bol; One PDot; One (PChar "s"); One (PChar ":");
          Group 1 (Plus true (One digit));
          One (PChar ":"); One (PChar dq);
          Group 2 (Star true (One PDot));
          One (PChar dq); One (PChar ";"); Eol].

(** In the planner: [/^.s:\d+:Q([^Q]+)Q.$/] *)
Definition value_pattern : regex :=
  seq_of [Bol; One PDot; One (PChar "s"); One (PChar ":");
          Plus true (One digit);
          One (PChar ":"); One (PChar dq);
          Group 1 (Plus true (One not_quote));
          One (PChar dq); One PDot; Eol].

Record token := Token {
  source : string;
  chars : N;
  value : string
}.

(** [parts] is null when [re2] does not match, and reading [parts[0]] then
    throws.  Both groups of [re2] take part in every match of it. *)
Definition token_of_match (mt : string) : result token :=
  match match_first (MkRegExp re2_pattern 2 false false) mt with
  | None => Throw TypeError
  | Some [Some p0; Some p1; Some p2] => Ok (Token p0 (parseInt p1) p2)
  | Some _ => Throw Unsupported
  end.

Definition findSerializedStrings (sql : string) : result (list token) :=
  let matches :=
    default [] (match_global (MkRegExp re_pattern 2 true false) sql) in
  mapM token_of_match matches.

(** [ignoreCase] is left out by every caller; the [i] flag is not modelled. *)
Definition countMatches (find source_ : string) (ignoreCase : option bool)
    : result nat :=
  if default false ignoreCase then Throw Unsupported else
  re <- newRegExp find true true ;;
  Ok (length (default [] (match_global re source_))).

(** ** The script: planning and patching *)

Record planned := Planned {
  p_token : token;
  rewriteChars : nat;
  rewriteValue : option string
}.

Definition plan_string (re re2 : RegExp) (replace_ : string) (s : token) : planned :=
  if test re (source s) then
    let rv := str_replace (source s) re2 replace_ in
    Planned s (slen (str_replace rv (MkRegExp value_pattern 1 false false) "$1")) (Some rv)
  else Planned s 0 None.

(** A value in a string concatenation. *)
Definition js_string (v : option string) : string :=
  match v with Some s => s | None => "null" end.

(** The pattern text and the replacement text of one patch. *)
Definition search_key (p : planned) : string :=
  "s:" +:+ toString (chars (p_token p)) +:+ ":" +:+ q
  +:+ value (p_token p) +:+ q.

Definition replacement (p : planned) : string :=
  "s:" +:+ toString (N.of_nat (rewriteChars p)) +:+ ":" +:+ q
  +:+ js_string (rewriteValue p) +:+ q.

(** One patch, the body shared by the two loops. *)
Definition patch (sql : string) (p : planned) : result string :=
  re <- newRegExp (search_key p) false false ;;
  Ok (str_replace sql re (replacement p)).

(** The loop of the non-verbose run: [_.each(strings, ...)]. *)
Fixpoint each_patch (strings : list planned) (sql : string) : result string :=
  match strings with
  | [] => Ok sql
  | p :: ps => sql' <- patch sql p ;; each_patch ps sql'
  end.

(** The loop of the verbose run: the timer calls its function until the
    progress bar, made with [total = replaceCount] and ticked once per call,
    is complete.  [remaining] is [total - curr]; [strings[idx]] is undefined
    past the end of the array and reading a field of it throws. *)
Fixpoint interval (strings : list planned) (remaining idx : nat) (sql : string)
    : result string :=
  match remaining with
  | O => Ok sql
  | S remaining' =>
    match strings !! idx with
    | None => Throw TypeError
    | Some p => sql' <- patch sql p ;; interval strings remaining' (S idx) sql'
    end
  end.

(** The rewrite plan: every string with its rewrite, the empties removed. *)
Definition plan (re re2 : RegExp) (replace_ : string) (strings : list token)
    : list planned :=
  List.filter (fun p => negb (Nat.eqb (rewriteChars p) 0))
    (List.map (plan_string re re2 replace_) strings).

Definition rewriteSerializedSql (verbose : bool) (sql find replace_ : string)
    : result string :=
  strings <- findSerializedStrings sql ;;
  re <- newRegExp find false false ;;
  re2 <- newRegExp find true false ;;
  let replaceCount := length (List.filter (fun s => test re (source s)) strings) in
  let strings := plan re re2 replace_ strings in
  if Nat.eqb replaceCount 0 then Ok sql
  else if verbose then interval strings replaceCount 0 sql
  else each_patch strings sql.

(** ** The script: files, stages and the process *)

Inductive node := File (contents : string) | Directory.

Definition readFile (disk : gmap string node) (path : string) : string :=
  match disk !! path with
  | Some (File contents) => contents
  | _ => EmptyString
  end.

(** [fs.writeFileSync] on a flat disk: the one failure that the disk can
    show is a directory at the path.  The other failures of a real file
    system (no parent directory, no permission) are outside this model,
    where such a write succeeds. *)
Definition writeFile (disk : gmap string node) (path contents : string)
    : result (gmap string node) :=
  match disk !! path with
  | Some Directory => Throw IoError
  | _ => Ok (<[path := File contents]> disk)
  end.

Record options := Options {
  o_input : option string;
  o_output : option string;
  o_find : option string;
  o_replace : option string
}.

Definition truthy (o : option string) : bool :=
  match o with
  | Some s => negb (is_empty s)
  | None => false
  end.

Record data := Data {
  d_sql : string;
  d_input : string;
  d_output : string;
  d_find : string;
  d_replace : string;
  d_count : nat
}.

Definition with_sql (sql : string) (d : data) : data :=
  Data sql (d_input d) (d_output d) (d_find d) (d_replace d) (d_count d).

(** An option as the script reads it once all four are known to be given. *)
Definition opt (o : option string) : string := default EmptyString o.

Definition all_given (opts : options) : bool :=
  Nat.eqb (length (List.filter truthy
    [o_input opts; o_output opts; o_find opts; o_replace opts])) 4.

Definition initialize (opts : options) (disk : gmap string node) : result data :=
  let sql := readFile disk (opt (o_input opts)) in
  if is_empty sql then Throw MissingSql else
  count <- countMatches (opt (o_find opts)) sql None ;;
  Ok (Data sql (opt (o_input opts)) (opt (o_output opts))
        (opt (o_find opts)) (opt (o_replace opts)) count).

Definition reserialize (verbose : bool) (d : data) : result data :=
  count <- countMatches (d_find d) (d_sql d) None ;;
  if Nat.eqb count 0 then Ok d else
  sql <- rewriteSerializedSql verbose (d_sql d) (d_find d) (d_replace d) ;;
  Ok (with_sql sql d).

Definition rewrite (d : data) : result data :=
  count <- countMatches (d_find d) (d_sql d) None ;;
  if Nat.eqb count 0 then Ok d else
  re <- newRegExp (d_find d) true true ;;
  Ok (with_sql (str_replace (d_sql d) re (d_replace d)) d).

(** A run of the script: the stages entered and the files written, in order,
    the disk it leaves and how the process ends. *)
Inductive stage := Initialize | Reserialize | Rewrite | Complete.

Inductive event :=
| Enter (s : stage)
| Wrote (path contents : string).

Inductive ending :=
| Help
| Exit (code : nat)
| Uncaught (e : error).

Record run := Run {
  trace : list event;
  disk_after : gmap string node;
  ended : ending
}.

(** The final callback of the waterfall, and an exception nobody catches. *)
Definition failed (tr : list event) (disk : gmap string node) (e : error) : run :=
  match e with
  | MissingSql => Run (tr ++ [Enter Complete]) disk (Exit 1)
  | _ => Run tr disk (Uncaught e)
  end.

Definition complete (tr : list event) (disk : gmap string node) (d : data) : run :=
  match writeFile disk (d_output d) (d_sql d) with
  | Throw e => Run (tr ++ [Enter Complete]) disk (Uncaught e)
  | Ok disk' =>
    Run (tr ++ [Enter Complete; Wrote (d_output d) (d_sql d)]) disk' (Exit 0)
  end.

Definition main (opts : options) (verbose : bool) (disk : gmap string node) : run :=
  if negb (all_given opts) then Run [] disk Help
  else
    match initialize opts disk with
    | Throw e => failed [Enter Initialize] disk e
    | Ok d =>
      match reserialize verbose d with
      | Throw e => failed [Enter Initialize; Enter Reserialize] disk e
      | Ok d1 =>
        match rewrite d1 with
        | Throw e => failed [Enter Initialize; Enter Reserialize; Enter Rewrite] disk e
        | Ok d2 => complete [Enter Initialize; Enter Reserialize; Enter Rewrite] disk d2
        end
      end
    end.

(** The three stages on a document that has been read, without the files. *)
Definition pipeline (verbose : bool) (sql find replace_ : string) : result string :=
  d <- reserialize verbose (Data sql EmptyString EmptyString find replace_ 0) ;;
  d' <- rewrite d ;;
  Ok (d_sql d').

(** ** Reference notions used in the statements *)

Fixpoint strip (p s : string) : option string :=
  match p, s with
  | EmptyString, _ => Some s
  | String a p', String b s' => if Ascii.eqb a b then strip p' s' else None
  | _, _ => None
  end.

Fixpoint drop_chars (n : nat) (s : string) : string :=
  match n, s with
  | S n', String _ s' => drop_chars n' s'
  | _, _ => s
  end.

Fixpoint skip_digits (s : string) : string :=
  match s with
  | String c s' => if is_digit c then skip_digits s' else s
  | EmptyString => s
  end.

(** [occurs key s]: the text [key] occurs in [s]. *)
Fixpoint occurs (key s : string) : bool :=
  match strip key s with
  | Some _ => true
  | None =>
    match s with
    | EmptyString => false
    | String _ s' => occurs key s'
    end
  end.

(** The first occurrence of the text [key] replaced by the text [new]. *)
Fixpoint literal_replace (key new s : string) : string :=
  match strip key s with
  | Some s' => new +:+ s'
  | None =>
    match s with
    | EmptyString => EmptyString
    | String c s' => String c (literal_replace key new s')
    end
  end.

(** What a reader of the dump takes for a serialized string at the start of
    [s]: [s:N:Q], then [N] characters, then [Q;].  It returns the value and
    the text that follows.  (For code units below 128, the only ones used
    with it here, a character is a byte.) *)
Definition unserialize_string (s : string) : option (string * string) :=
  match strip "s:" s with
  | None => None
  | Some s1 =>
    match strip (":" +:+ q) (skip_digits s1) with
    | None => None
    | Some s2 =>
      let n := N.to_nat (parseInt s1) in
      if is_empty (consumed s1 (skip_digits s1)) || Nat.ltb (slen s2) n then None
      else
        match strip (q +:+ ";") (drop_chars n s2) with
        | Some s3 => Some (take n s2, s3)
        | None => None
        end
    end
  end.

(** ** Notions used in the proofs *)

(** The files written during a run, in order. *)
Definition is_write (e : event) : bool :=
  match e with Wrote _ _ => true | Enter _ => false end.

Definition writes (tr : list event) : list event := List.filter is_write tr.

(** Every character of [s] satisfies [p]. *)
Fixpoint all_s (p : ascii -> bool) (s : string) : bool :=
  match s with
  | EmptyString => true
  | String c s' => p c && all_s p s'
  end.

(** The character before the position reached after reading [w]. *)
Fixpoint last_char (pv : option ascii) (w : string) : option ascii :=
  match w with
  | EmptyString => pv
  | String a w' => last_char (Some a) w'
  end.

(** The first character after a run does not belong to the class. *)
Definition stops (p : cpred) (s : string) : Prop :=
  match s with
  | EmptyString => True
  | String a _ => cmatch p a = false
  end.

(** The text of a serialized string after the delimiter [D], followed by [t]. *)
Definition serialized_then (D : ascii) (ds v t : string) : string :=
  String D ("s:" +:+ ds +:+ ":" +:+ q +:+ v +:+ q +:+ ";" +:+ t).

Definition serialized (D : ascii) (ds v : string) : string :=
  serialized_then D ds v EmptyString.

(** The number of double quotes in [s]. *)
Fixpoint count_q (s : string) : nat :=
  match s with
  | EmptyString => 0
  | String c s' => (if Ascii.eqb c dq then 1 else 0) + count_q s'
  end.

(** [mr] uses its continuation only at positions that are not before the
    one it starts from. *)
Definition forward (mr : state -> cont -> option state) : Prop :=
  forall x c c',
    (forall y, slen (rest y) <= slen (rest x) -> c y = c' y) ->
    mr x c = mr x c'.

(** ** The rest of the script: the verbose option, numbers and times *)

(** [toLowerCase] on code units below 256: the letters A to Z, and the
    capital letters from 192 to 222 but for the multiplication sign 215. *)
Definition lower (c : ascii) : ascii :=
  if between 65 90 c || (between 192 222 c && negb (code c =? 215)%N)
  then ascii_of_N (code c + 32) else c.

Fixpoint toLowerCase (s : string) : string :=
  match s with
  | EmptyString => EmptyString
  | String c s' => String (lower c) (toLowerCase s')
  end.

Fixpoint trimStart (s : string) : string :=
  match s with
  | String c s' => if is_space c then trimStart s' else s
  | EmptyString => s
  end.

Fixpoint trimEnd (s : string) : string :=
  match s with
  | EmptyString => EmptyString
  | String c s' =>
    match trimEnd s' with
    | EmptyString => if is_space c then EmptyString else String c EmptyString
    | t => String c t
    end
  end.

Definition trim (s : string) : string := trimEnd (trimStart s).

(** The expression of the verbose option: [/^1|(true)$/] *)
Definition verbose_pattern : regex :=
  Alt (Seq Bol (One (PChar "1")))
      (Seq (Group 1 (seq_of [One (PChar "t"); One (PChar "r");
                             One (PChar "u"); One (PChar "e")])) Eol).

(** The function that reads the value of [--verbose]; the value is null or
    undefined ([None]) or a string. *)
Definition verbose_option (value : option string) : bool :=
  let value := default EmptyString value in
  let value := trim (toLowerCase value) in
  test (MkRegExp verbose_pattern 1 false false) value.

(** The exit code of the process.  The help is printed by a [return] from
    the module, without [process.exit]: the process then ends with code 0.
    An exception that nobody catches ends it with code 1. *)
Definition exit_code (e : ending) : nat :=
  match e with
  | Help => 0
  | Exit code => code
  | Uncaught _ => 1
  end.

(** [withCommas].  Its expression, [/\B(?=(\d{3})+(?!\d))/g], matches the
    empty text at the positions that are not a word boundary and are
    followed by groups of three digits, one or more, and then no digit;
    [replace] puts a comma at each of them. *)
Definition word_at (c : option ascii) : bool :=
  match c with Some a => is_word a | None => false end.

Definition first_char (s : string) : option ascii :=
  match s with String c _ => Some c | EmptyString => None end.

Definition not_boundary (pv : option ascii) (s : string) : bool :=
  Bool.eqb (word_at pv) (word_at (first_char s)).

Definition digit_at (c : option ascii) : bool :=
  match c with Some a => is_digit a | None => false end.

Fixpoint triples (s : string) : bool :=
  match s with
  | String a (String b (String c s')) =>
    is_digit a && is_digit b && is_digit c
    && (negb (digit_at (first_char s')) || triples s')
  | _ => false
  end.

Fixpoint commas (pv : option ascii) (s : string) : string :=
  (if not_boundary pv s && triples s then "," else EmptyString)
  +:+ match s with
      | EmptyString => EmptyString
      | String c s' => String c (commas (Some c) s')
      end.

Definition withCommas (num : N) : string := commas None (toString num).

(** [formatSecondsIntoTimeRemaining] of the second copy of the script, for a
    whole number of seconds that a number holds exactly (below 2^53 in
    absolute value, where the divisions and [Math.floor] give the integer
    quotients).  [_.compact] drops the null pieces and [join] without an
    argument puts a comma between the others. *)
Definition time_parts (seconds : Z) : N * N * N * N :=
  let delta := Z.abs_N seconds in
  let days := (delta / 86400)%N in
  let delta := (delta - days * 86400)%N in
  let hours := ((delta / 3600) mod 24)%N in
  let delta := (delta - hours * 3600)%N in
  let minutes := ((delta / 60) mod 60)%N in
  let delta := (delta - minutes * 60)%N in
  let seconds := (delta mod 60)%N in
  (days, hours, minutes, seconds).

Definition piece (n : N) (unit : string) : option string :=
  if (n =? 0)%N then None else Some (toString n +:+ unit).

Definition compact (l : list (option string)) : list string :=
  List.concat (List.map (fun o => match o with Some s => [s] | None => [] end) l).

Definition formatSecondsIntoTimeRemaining (seconds : Z) : string :=
  match time_parts seconds with
  | (days, hours, minutes, seconds) =>
    String.concat ","
      (compact [piece days "d "; piece hours "h "; piece minutes "m ";
                piece seconds "s"])
  end.

(** ** More notions used in the proofs *)

(** The whole numbers that a number of the script holds exactly, up to
    [Number.MAX_SAFE_INTEGER]. *)
Definition MAX_SAFE_INTEGER : N := 9007199254740991.

Definition safe_integer (n : N) : Prop := (n <= MAX_SAFE_INTEGER)%N.

(** A character that stands for itself in a pattern. *)
Definition is_literal (c : ascii) : bool :=
  match syntax_char c with SLit => true | _ => false end.

Definition not_dollar (c : ascii) : bool := negb (Ascii.eqb c "$").

(** The pattern of a text made of literal characters. *)
Fixpoint literal_terms (s : string) : list regex :=
  match s with
  | EmptyString => []
  | String c s' => One (PChar c) :: literal_terms s'
  end.

(** [s] without its commas. *)
Fixpoint without_commas (s : string) : string :=
  match s with
  | EmptyString => EmptyString
  | String c s' =>
    if Ascii.eqb c "," then without_commas s' else String c (without_commas s')
  end.

(** [s] ends with the text [e]. *)
Fixpoint ends_with (e s : string) : bool :=
  String.eqb s e
  || match s with
     | EmptyString => false
     | String _ s' => ends_with e s'
     end.

(** The parser's frame after a text of literal characters. *)
Fixpoint push_literals (s : string) (f : frame) : frame :=
  match s with
  | EmptyString => f
  | String c s' => push_literals s' (push_atom (One (PChar c)) f)
  end.

(** [s] starts with the text [p]. *)
Definition starts_with (p s : string) : bool :=
  match strip p s with Some _ => true | None => false end.

(** The matcher succeeded. *)
Definition found (o : option state) : bool :=
  match o with Some _ => true | None => false end.

(** Every occurrence of the text [key] replaced by the text [new], from
    left to right; [skip] characters are still part of an occurrence that has
    been replaced. *)
Fixpoint replace_all_from (key new : string) (skip : nat) (s : string) : string :=
  match s with
  | EmptyString => EmptyString
  | String c t =>
    match skip with
    | S k => replace_all_from key new k t
    | O =>
      match strip key s with
      | Some _ => new +:+ replace_all_from key new (slen key - 1) t
      | None => String c (replace_all_from key new 0 t)
      end
    end
  end.

(** ** The regular expression literals are what their text parses to *)

Lemma re_pattern_parsed :
  parse ("[;{}]s:(\d+):" +:+ q +:+ "([^" +:+ q +:+ "]+)" +:+ q +:+ ";")
  = Ok (re_pattern, 2).
Proof. reflexivity. Qed.

Lemma re2_pattern_parsed :
  parse ("^.s:(\d+):" +:+ q +:+ "(.*)" +:+ q +:+ ";$") = Ok (re2_pattern, 2).
Proof. reflexivity. Qed.

Lemma value_pattern_parsed :
  parse ("^.s:\d+:" +:+ q +:+ "([^" +:+ q +:+ "]+)" +:+ q +:+ ".$")
  = Ok (value_pattern, 1).
Proof. reflexivity. Qed.

(** ** The examples of the specification, run *)

(** C2, as the script runs it: nothing precedes [s:] in this document, so the
    scanner finds no string in it and the plain pass alone rewrites it; the
    declared length stays 5. *)
Theorem example_hi_keeps_declared_length (verbose : bool) :
  findSerializedStrings ("s:5:" +:+ q +:+ "hello" +:+ q +:+ ";") = Ok []
  /\ pipeline verbose ("s:5:" +:+ q +:+ "hello" +:+ q +:+ ";") "hello" "hi"
     = Ok ("s:5:" +:+ q +:+ "hi" +:+ q +:+ ";").
Proof. destruct verbose; split; vm_compute; reflexivity. Qed.

Lemma example_hi_length_not_recomputed :
  pipeline false ("s:5:" +:+ q +:+ "hello" +:+ q +:+ ";") "hello" "hi"
  <> Ok ("s:2:" +:+ q +:+ "hi" +:+ q +:+ ";").
Proof. vm_compute. discriminate. Qed.

(** C4, as the script runs it: a space precedes [s:], so the scanner finds no
    string; the plain pass rewrites both occurrences and the declared length
    stays 5. *)
Theorem example_goodbye_keeps_declared_length (verbose : bool) :
  let sql := "UPDATE t SET x='hello' WHERE s:5:" +:+ q +:+ "hello" +:+ q +:+ ";" in
  findSerializedStrings sql = Ok []
  /\ reserialize verbose (Data sql EmptyString EmptyString "hello" "goodbye" 0)
     = Ok (Data sql EmptyString EmptyString "hello" "goodbye" 0)
  /\ pipeline verbose sql "hello" "goodbye"
     = Ok ("UPDATE t SET x='goodbye' WHERE s:5:" +:+ q +:+ "goodbye" +:+ q +:+ ";").
Proof. destruct verbose; repeat split; vm_compute; reflexivity. Qed.

Lemma example_goodbye_length_not_recomputed :
  exists out,
    pipeline false
      ("UPDATE t SET x='hello' WHERE s:5:" +:+ q +:+ "hello" +:+ q +:+ ";")
      "hello" "goodbye" = Ok out
    /\ occurs ("s:7:" +:+ q +:+ "goodbye" +:+ q +:+ ";") out = false.
Proof. eexists. split; vm_compute; reflexivity. Qed.

(** C1 at a well-formed string the scanner does find: the patch puts the
    whole rewritten source text between the quotes, under the length of the
    rewritten value alone, and a reader of the dump rejects the result. *)
Theorem rewritten_token_is_malformed :
  let sql := ";s:5:" +:+ q +:+ "hello" +:+ q +:+ ";" in
  let out := ";s:2:" +:+ q +:+ ";s:5:" +:+ q +:+ "hi" +:+ q +:+ ";" +:+ q +:+ ";" in
  unserialize_string (drop_chars 1 sql) = Some ("hello"%string, EmptyString)
  /\ findSerializedStrings sql = Ok [Token sql 5 "hello"]
  /\ pipeline false sql "hello" "hi" = Ok out
  /\ pipeline true sql "hello" "hi" = Ok out
  /\ unserialize_string (drop_chars 1 out) = None.
Proof. repeat split; vm_compute; reflexivity. Qed.

(** C7 at a string whose value holds a line feed: [re] matches it, since
    [[^Q]] takes a line terminator, but the dot of [re2] does not, so [parts]
    is null and the scanner throws instead of returning the token. *)
Theorem scanner_throws_on_line_break :
  let sql := ";s:3:" +:+ q +:+ "a" +:+ String "010" "b" +:+ q +:+ ";" in
  match_global (MkRegExp re_pattern 2 true false) sql = Some [sql]
  /\ match_first (MkRegExp re2_pattern 2 false false) sql = None
  /\ findSerializedStrings sql = Throw TypeError.
Proof. repeat split; vm_compute; reflexivity. Qed.

(** C6 at a document whose only string is emptied by the substitution: the
    plan is empty while [replaceCount] is 1.  The loop of the non-verbose run
    has nothing to do and hands the document on; the timer of the verbose run
    reads [strings[0]], which is undefined, and throws. *)
Theorem verbose_loop_reads_past_the_plan :
  let sql := ";s:1:" +:+ q +:+ "a" +:+ q +:+ ";" in
  findSerializedStrings sql = Ok [Token sql 1 "a"]
  /\ rewriteSerializedSql false sql ".+" "$`" = Ok sql
  /\ rewriteSerializedSql true sql ".+" "$`" = Throw TypeError
  /\ pipeline false sql ".+" "$`" = Ok EmptyString
  /\ pipeline true sql ".+" "$`" = Throw TypeError.
Proof. repeat split; vm_compute; reflexivity. Qed.

(** When no matched string was dropped from the plan, the two loops do the
    same patches in the same order. *)
Lemma interval_each_patch (strings : list planned) :
  forall (done_ : list planned) (sql : string),
    interval (done_ ++ strings) (length strings) (length done_) sql
    = each_patch strings sql.
Proof.
  induction strings as [|p ps IH]; intros done_ sql; simpl.
  - reflexivity.
  - rewrite lookup_app_r by lia.
    replace (length done_ - length done_) with 0 by lia. simpl.
    destruct (patch sql p) as [sql'|e]; simpl; [|reflexivity].
    specialize (IH (done_ ++ [p]) sql').
    rewrite <- app_assoc in IH. simpl in IH.
    rewrite length_app in IH. simpl in IH.
    replace (length done_ + 1) with (S (length done_)) in IH by lia.
    exact IH.
Qed.

Lemma loops_agree_on_full_plan (strings : list planned) (sql : string) :
  interval strings (length strings) 0 sql = each_patch strings sql.
Proof. exact (interval_each_patch strings [] sql). Qed.

(** C9: the pattern of a patch is the value of the string, unescaped.  Three
    scanned and planned strings whose patch is not the replacement of their
    own text: with [+] in the value the pattern matches nothing and the
    document stays as it is, although the text of the key occurs in it; with
    [.] it matches an earlier string and rewrites that one; with [)] the
    construction of the expression throws. *)
Theorem patch_pattern_is_not_escaped :
  (exists sql find replace_ re re2 strings p,
      findSerializedStrings sql = Ok strings
      /\ newRegExp find false false = Ok re /\ newRegExp find true false = Ok re2
      /\ In p (plan re re2 replace_ strings)
      /\ occurs "+" (value (p_token p)) = true
      /\ occurs (search_key p) sql = true
      /\ patch sql p = Ok sql
      /\ literal_replace (search_key p) (replacement p) sql <> sql)
  /\ (exists sql find replace_ re re2 strings p out,
      findSerializedStrings sql = Ok strings
      /\ newRegExp find false false = Ok re /\ newRegExp find true false = Ok re2
      /\ In p (plan re re2 replace_ strings)
      /\ occurs "." (value (p_token p)) = true
      /\ patch sql p = Ok out
      /\ out <> sql
      /\ out <> literal_replace (search_key p) (replacement p) sql
      /\ occurs (search_key p) out = true)
  /\ (exists sql find replace_ re re2 strings p,
      findSerializedStrings sql = Ok strings
      /\ newRegExp find false false = Ok re /\ newRegExp find true false = Ok re2
      /\ In p (plan re re2 replace_ strings)
      /\ occurs ")" (value (p_token p)) = true
      /\ patch sql p = Throw SyntaxError
      /\ rewriteSerializedSql false sql find replace_ = Throw SyntaxError
      /\ rewriteSerializedSql true sql find replace_ = Throw SyntaxError).
Proof.
  split; [|split].
  - exists (";s:3:" +:+ q +:+ "a+b" +:+ q +:+ ";"), "b"%string, "c"%string.
    do 4 eexists.
    split; [vm_compute; reflexivity|].
    split; [vm_compute; reflexivity|].
    split; [vm_compute; reflexivity|].
    split; [vm_compute; left; reflexivity|].
    repeat split; try (vm_compute; reflexivity).
    vm_compute. discriminate.
  - exists ("{s:3:" +:+ q +:+ "abc" +:+ q +:+ ";};s:3:" +:+ q +:+ "a.c" +:+ q +:+ ";"),
      "a[.]c"%string, "x"%string.
    do 5 eexists.
    split; [vm_compute; reflexivity|].
    split; [vm_compute; reflexivity|].
    split; [vm_compute; reflexivity|].
    split; [vm_compute; left; reflexivity|].
    split; [vm_compute; reflexivity|].
    split; [vm_compute; reflexivity|].
    repeat split; try (vm_compute; reflexivity); vm_compute; discriminate.
  - exists (";s:1:" +:+ q +:+ ")" +:+ q +:+ ";"), "s"%string, "z"%string.
    do 4 eexists.
    split; [vm_compute; reflexivity|].
    split; [vm_compute; reflexivity|].
    split; [vm_compute; reflexivity|].
    split; [vm_compute; left; reflexivity|].
    repeat split; vm_compute; reflexivity.
Qed.

(** C5: here the substitution leaves the quoted value of the string empty.
    The planner's expression wants a value of one character at least, so it
    does not match the rewritten text and the length recorded is that of the
    whole text, 8, not 0: the string is not removed with the empties, and
    the document is patched. *)
Lemma emptied_value_is_still_patched :
  let sql := ";s:5:" +:+ q +:+ "hello" +:+ q +:+ ";" in
  exists re re2 p,
    newRegExp ("hello" +:+ q) false false = Ok re
    /\ newRegExp ("hello" +:+ q) true false = Ok re2
    /\ findSerializedStrings sql = Ok [Token sql 5 "hello"]
    /\ str_replace sql re2 q = ";s:5:" +:+ q +:+ q +:+ ";"
    /\ plan re re2 q [Token sql 5 "hello"] = [p]
    /\ rewriteChars p = 8
    /\ rewriteSerializedSql false sql ("hello" +:+ q) q
       = Ok (";s:8:" +:+ q +:+ ";s:5:" +:+ q +:+ q +:+ ";" +:+ q +:+ ";")
    /\ rewriteSerializedSql true sql ("hello" +:+ q) q
       = Ok (";s:8:" +:+ q +:+ ";s:5:" +:+ q +:+ q +:+ ";" +:+ q +:+ ";").
Proof.
  do 3 eexists.
  split; [vm_compute; reflexivity|].
  split; [vm_compute; reflexivity|].
  repeat split; vm_compute; reflexivity.
Qed.

(** ** The stages when nothing matches, and the files *)

Lemma is_empty_false (s : string) : s <> EmptyString -> is_empty s = false.
Proof. destruct s; [congruence | reflexivity]. Qed.

Lemma reserialize_no_match (verbose : bool) (d : data) :
  countMatches (d_find d) (d_sql d) None = Ok 0 -> reserialize verbose d = Ok d.
Proof. intros H. unfold reserialize. rewrite H. reflexivity. Qed.

Lemma rewrite_no_match (d : data) :
  countMatches (d_find d) (d_sql d) None = Ok 0 -> rewrite d = Ok d.
Proof. intros H. unfold rewrite. rewrite H. reflexivity. Qed.

Lemma writeFile_file (disk : gmap string node) (path contents : string) :
  disk !! path <> Some Directory ->
  writeFile disk path contents = Ok (<[path := File contents]> disk).
Proof.
  intros H. unfold writeFile.
  destruct (disk !! path) as [[c|]|]; try reflexivity. congruence.
Qed.

(** C3: when the find pattern has no match in the document, both stages hand
    the document on as it is, and the file written is the file read. *)
Theorem no_match_output_is_input (opts : options) (verbose : bool)
    (disk : gmap string node) (sql : string) :
  countMatches (opt (o_find opts)) sql None = Ok 0 ->
  let d := Data sql (opt (o_input opts)) (opt (o_output opts))
             (opt (o_find opts)) (opt (o_replace opts)) 0 in
  reserialize verbose d = Ok d
  /\ rewrite d = Ok d
  /\ pipeline verbose sql (opt (o_find opts)) (opt (o_replace opts)) = Ok sql
  /\ (all_given opts = true ->
      disk !! opt (o_input opts) = Some (File sql) ->
      sql <> EmptyString ->
      disk !! opt (o_output opts) <> Some Directory ->
      main opts verbose disk
      = Run [Enter Initialize; Enter Reserialize; Enter Rewrite; Enter Complete;
             Wrote (opt (o_output opts)) sql]
            (<[opt (o_output opts) := File sql]> disk) (Exit 0)).
Proof.
  intros H d.
  assert (Hres : reserialize verbose d = Ok d) by (apply reserialize_no_match; exact H).
  assert (Hrew : rewrite d = Ok d) by (apply rewrite_no_match; exact H).
  split; [exact Hres|]. split; [exact Hrew|]. split.
  - unfold pipeline, reserialize, rewrite. simpl. rewrite H. simpl.
    rewrite H. reflexivity.
  - intros Hopts Hin Hne Hout. unfold main. rewrite Hopts. simpl.
    unfold initialize, readFile. rewrite Hin.
    rewrite (is_empty_false _ Hne). rewrite H. simpl. fold d.
    rewrite Hres, Hrew. unfold complete. simpl.
    rewrite (writeFile_file _ _ _ Hout). reflexivity.
Qed.

Lemma no_match_output_is_input_witness :
  let opts := Options (Some "in.sql"%string) (Some "out.sql"%string)
                (Some "hello"%string) (Some "hi"%string) in
  let disk : gmap string node := {[ "in.sql"%string := File "x='bye';" ]} in
  main opts true disk
  = Run [Enter Initialize; Enter Reserialize; Enter Rewrite; Enter Complete;
         Wrote "out.sql" "x='bye';"]
        (<["out.sql"%string := File "x='bye';"]> disk) (Exit 0).
Proof.
  intros opts disk.
  apply (no_match_output_is_input opts true disk "x='bye';").
  - vm_compute. reflexivity.
  - reflexivity.
  - vm_compute. reflexivity.
  - discriminate.
  - vm_compute. discriminate.
Defined.

(** ** Files are written once, at the end *)

Lemma failed_writes (tr : list event) (disk : gmap string node) (e : error) :
  writes tr = [] ->
  writes (trace (failed tr disk e)) = [] /\ disk_after (failed tr disk e) = disk.
Proof.
  intros H. unfold failed, writes in *.
  destruct e; simpl; rewrite ?List.filter_app, ?H; split; reflexivity.
Qed.

(** C8: without a readable, non-empty input file the run stops in its first
    stage, exits with code 1 and writes nothing.  In every run the output
    file is written at most once; when it is, all stages have been entered
    before, and what is written is the document that the second rewrite
    stage returned. *)
Theorem missing_input_aborts_and_output_written_once (opts : options)
    (verbose : bool) (disk : gmap string node) :
  (all_given opts = true ->
   disk !! opt (o_input opts) = None
   \/ disk !! opt (o_input opts) = Some Directory
   \/ disk !! opt (o_input opts) = Some (File EmptyString) ->
   main opts verbose disk = Run [Enter Initialize; Enter Complete] disk (Exit 1))
  /\ (writes (trace (main opts verbose disk)) = []
      /\ disk_after (main opts verbose disk) = disk
      \/ exists d d1 d2,
           initialize opts disk = Ok d
           /\ reserialize verbose d = Ok d1
           /\ rewrite d1 = Ok d2
           /\ main opts verbose disk
              = Run [Enter Initialize; Enter Reserialize; Enter Rewrite;
                     Enter Complete; Wrote (d_output d2) (d_sql d2)]
                    (<[d_output d2 := File (d_sql d2)]> disk) (Exit 0)).
Proof.
  split.
  - intros Hopts Hin. unfold main. rewrite Hopts. simpl.
    assert (Hread : readFile disk (opt (o_input opts)) = EmptyString).
    { unfold readFile. destruct Hin as [-> | [-> | ->]]; reflexivity. }
    unfold initialize. rewrite Hread. reflexivity.
  - unfold main. destruct (all_given opts); simpl; [|left; split; reflexivity].
    destruct (initialize opts disk) as [d|e] eqn:Hinit.
    2:{ left. apply failed_writes. reflexivity. }
    destruct (reserialize verbose d) as [d1|e] eqn:Hres.
    2:{ left. apply failed_writes. reflexivity. }
    destruct (rewrite d1) as [d2|e] eqn:Hrew.
    2:{ left. apply failed_writes. reflexivity. }
    unfold complete. unfold writeFile.
    destruct (disk !! d_output d2) as [[c|]|] eqn:Hout.
    + right. exists d, d1, d2. repeat split; assumption || reflexivity.
    + left. split; reflexivity.
    + right. exists d, d1, d2. repeat split; assumption || reflexivity.
Qed.

Lemma missing_input_aborts_witness :
  let opts := Options (Some "in.sql"%string) (Some "out.sql"%string)
                (Some "hello"%string) (Some "hi"%string) in
  let disk : gmap string node := {[ "in.sql"%string := Directory ]} in
  main opts false disk = Run [Enter Initialize; Enter Complete] disk (Exit 1).
Proof.
  intros opts disk.
  apply (proj1 (missing_input_aborts_and_output_written_once opts false disk)).
  - reflexivity.
  - right. left. vm_compute. reflexivity.
Defined.

(** ** Strings: the facts used below *)

#[local] Arguments Ascii.eqb : simpl never.

Lemma app_assoc_s (a b c : string) : (a +:+ b) +:+ c = a +:+ (b +:+ c).
Proof. induction a as [|x a IH]; simpl; [reflexivity | now rewrite IH]. Qed.

Lemma app_nil_r_s (a : string) : a +:+ EmptyString = a.
Proof. induction a as [|x a IH]; simpl; [reflexivity | now rewrite IH]. Qed.

Lemma slen_app (a b : string) : slen (a +:+ b) = slen a + slen b.
Proof. induction a as [|x a IH]; simpl; [reflexivity | now rewrite IH]. Qed.

Lemma take_app (w s : string) : take (slen w) (w +:+ s) = w.
Proof. induction w as [|x w IH]; simpl; [now destruct s | now rewrite IH]. Qed.

Lemma consumed_app (w s : string) : consumed (w +:+ s) s = w.
Proof.
  unfold consumed. rewrite slen_app.
  replace (slen w + slen s - slen s) with (slen w) by lia. apply take_app.
Qed.

Lemma consumed_all (w : string) : consumed w EmptyString = w.
Proof.
  rewrite <- (app_nil_r_s w) at 1. apply consumed_app.
Qed.

Lemma all_s_app (p : ascii -> bool) (a b : string) :
  all_s p (a +:+ b) = all_s p a && all_s p b.
Proof.
  induction a as [|x a IH]; simpl; [reflexivity|].
  rewrite IH. now rewrite andb_assoc.
Qed.

Lemma last_char_app (pv : option ascii) (a b : string) :
  last_char pv (a +:+ b) = last_char (last_char pv a) b.
Proof. revert pv. induction a as [|x a IH]; intros pv; simpl; [reflexivity | apply IH]. Qed.

Lemma slen_pos (s : string) : s <> EmptyString -> 0 < slen s.
Proof. destruct s; [congruence | simpl; lia]. Qed.

(** ** The matcher on single characters and on runs of them *)

Lemma filter_all {A} (l : list A) : List.filter (fun _ => true) l = l.
Proof. induction l as [|a l IH]; simpl; [reflexivity | now rewrite IH]. Qed.

Lemma clear_caps_one (p : cpred) (x : state) : clear_caps (One p) x = x.
Proof. destruct x as [pv s cs]. unfold clear_caps. simpl. now rewrite filter_all. Qed.

Lemma m_seq ml r1 r2 x c :
  m ml (Seq r1 r2) x c = m ml r1 x (fun y => m ml r2 y c).
Proof. reflexivity. Qed.

Lemma m_group ml i r x c :
  m ml (Group i r) x c
  = m ml r x (fun y =>
      c (State (prev y) (rest y) (set_cap i (consumed (rest x) (rest y)) (caps y)))).
Proof. reflexivity. Qed.

Lemma repeat_greedy mr clr n x c :
  repeat mr clr true (S n) x c
  = match mr (clr x) (fun y =>
            if Nat.eqb (slen (rest y)) (slen (rest x)) then None
            else repeat mr clr true n y c) with
    | Some z => Some z
    | None => c x
    end.
Proof. reflexivity. Qed.

Lemma slen_tail_neq (a : ascii) (s : string) :
  Nat.eqb (slen s) (slen (String a s)) = false.
Proof. apply Nat.eqb_neq. simpl. lia. Qed.

Section OneClass.

Variables (ml : bool) (p : cpred).

Lemma m_one pv a s cs c :
  m ml (One p) (State pv (String a s) cs) c
  = if cmatch p a then c (State (Some a) s cs) else None.
Proof. reflexivity. Qed.

Lemma m_one_inv x c z :
  m ml (One p) x c = Some z ->
  exists a s, rest x = String a s /\ cmatch p a = true
              /\ c (State (Some a) s (caps x)) = Some z.
Proof.
  simpl. destruct (rest x) as [|a s]; [discriminate|].
  destruct (cmatch p a) eqn:Hp; [|discriminate].
  intros H. exists a, s. auto.
Qed.

(** A greedy run over one character class: whatever the continuation
    accepts, it accepts after a prefix of characters of the class. *)
Lemma repeat_one_inv c z :
  forall fuel x,
    repeat (m ml (One p)) (clear_caps (One p)) true fuel x c = Some z ->
    exists w s, rest x = w +:+ s /\ all_s (cmatch p) w = true
                /\ c (State (last_char (prev x) w) s (caps x)) = Some z.
Proof.
  induction fuel as [|n IH]; intros [pv s0 cs] H.
  - exists EmptyString, s0. auto.
  - rewrite repeat_greedy, clear_caps_one in H.
    destruct s0 as [|a s1].
    + exists EmptyString, EmptyString. auto.
    + rewrite m_one in H. destruct (cmatch p a) eqn:Hp.
      * cbn [rest] in H. rewrite slen_tail_neq in H.
        destruct (repeat (m ml (One p)) (clear_caps (One p)) true n
                    (State (Some a) s1 cs) c) as [z'|] eqn:Hrec.
        -- injection H as <-. apply IH in Hrec as (w & s & Hr & Hall & Hc).
           simpl in Hr, Hc. exists (String a w), s. simpl.
           rewrite Hr, Hp, Hall. auto.
        -- exists EmptyString, (String a s1). auto.
      * exists EmptyString, (String a s1). auto.
Qed.

Lemma plus_one_inv x c z :
  m ml (Plus true (One p)) x c = Some z ->
  exists a w s, rest x = String a (w +:+ s) /\ cmatch p a = true
                /\ all_s (cmatch p) w = true
                /\ c (State (last_char (Some a) w) s (caps x)) = Some z.
Proof.
  intros H. change (m ml (Plus true (One p)) x c)
    with (m ml (One p) (clear_caps (One p) x) (fun y =>
            repeat (m ml (One p)) (clear_caps (One p)) true (S (slen (rest y))) y c)) in H.
  rewrite clear_caps_one in H.
  apply m_one_inv in H as (a & s1 & Hr & Hp & H).
  apply repeat_one_inv in H as (w & s & Hr' & Hall & Hc). simpl in Hr', Hc.
  exists a, w, s. rewrite Hr, Hr'. auto.
Qed.

(** A greedy run takes all the characters of the class when the continuation
    accepts what follows them. *)
Lemma repeat_one_run c z :
  forall w s pv cs fuel,
    all_s (cmatch p) w = true -> stops p s -> slen (w +:+ s) < fuel ->
    c (State (last_char pv w) s cs) = Some z ->
    repeat (m ml (One p)) (clear_caps (One p)) true fuel (State pv (w +:+ s) cs) c
    = Some z.
Proof.
  induction w as [|a w IH]; intros s pv cs fuel Hall Hstop Hfuel Hc.
  - destruct fuel as [|n]; [simpl in Hfuel; lia|].
    rewrite repeat_greedy, clear_caps_one. simpl in *.
    destruct s as [|b s']; [exact Hc|].
    simpl in Hstop. rewrite Hstop. exact Hc.
  - destruct fuel as [|n]; [simpl in Hfuel; lia|].
    simpl in Hall. apply andb_true_iff in Hall as [Ha Hall].
    rewrite repeat_greedy, clear_caps_one.
    change (String a w +:+ s) with (String a (w +:+ s)).
    rewrite m_one, Ha. cbn [rest]. rewrite slen_tail_neq.
    rewrite (IH s (Some a) cs n Hall Hstop); [reflexivity | | exact Hc].
    simpl in Hfuel. lia.
Qed.

Lemma plus_one_run c z a w s pv cs :
  cmatch p a = true -> all_s (cmatch p) w = true -> stops p s ->
  c (State (last_char (Some a) w) s cs) = Some z ->
  m ml (Plus true (One p)) (State pv (String a (w +:+ s)) cs) c = Some z.
Proof.
  intros Ha Hall Hstop Hc.
  change (m ml (Plus true (One p)) (State pv (String a (w +:+ s)) cs) c)
    with (m ml (One p) (clear_caps (One p) (State pv (String a (w +:+ s)) cs))
            (fun y => repeat (m ml (One p)) (clear_caps (One p)) true
                        (S (slen (rest y))) y c)).
  rewrite clear_caps_one, m_one, Ha.
  apply repeat_one_run; auto.
Qed.

End OneClass.

(** ** The search loops *)

Lemma search_here ml r pv s y :
  m ml r (State pv s []) Some = Some y -> search ml r pv s = Some (MResult s y).
Proof. intros H. destruct s; simpl; rewrite H; reflexivity. Qed.


Lemma search_found ml r :
  forall s pv res,
    search ml r pv s = Some res ->
    exists pv', m ml r (State pv' (m_start res) []) Some = Some (m_end res).
Proof.
  induction s as [|a s IH]; intros pv res H; simpl in H.
  - destruct (m ml r (State pv EmptyString []) Some) as [y|] eqn:Hm; [|discriminate].
    injection H as <-. exists pv. exact Hm.
  - destruct (m ml r (State pv (String a s) []) Some) as [y|] eqn:Hm.
    + injection H as <-. exists pv. exact Hm.
    + apply IH in H. exact H.
Qed.

(** ** What the three expressions of the script match *)

Lemma serialized_app (D : ascii) (ds v t : string) :
  serialized D ds v +:+ t = serialized_then D ds v t.
Proof.
  unfold serialized, serialized_then. simpl.
  repeat (rewrite app_assoc_s; simpl). reflexivity.
Qed.

Lemma cmatch_char (c a : ascii) : cmatch (PChar c) a = true -> a = c.
Proof. simpl. intros H. apply Ascii.eqb_eq in H. congruence. Qed.

Lemma cmatch_delimiter (D : ascii) :
  cmatch delimiter D = true <-> D = ";" \/ D = "{" \/ D = "}".
Proof.
  split.
  - intros H. unfold delimiter in H. simpl in H.
    destruct (Ascii.eqb_spec ";" D) as [E|_]; [auto|].
    destruct (Ascii.eqb_spec "{" D) as [E|_]; [auto|].
    destruct (Ascii.eqb_spec "}" D) as [E|_]; [auto|].
    discriminate.
  - intros [-> | [-> | ->]]; reflexivity.
Qed.

Ltac step_char H a s Ha :=
  rewrite m_seq in H;
  apply m_one_inv in H as (a & s & ?Hr & Ha & H);
  cbn [rest caps prev] in *; subst.

Ltac step_run H a w s Ha Hw :=
  apply plus_one_inv in H as (a & w & s & ?Hr & Ha & Hw & H);
  cbn [rest caps prev] in *; subst.

(** Whatever [re] matches is a delimiter and a serialized string with a
    non-empty value that holds no double quote; the captures are its digits
    and its value. *)
Lemma re_pattern_inv ml pv s z :
  m ml re_pattern (State pv s []) Some = Some z ->
  exists D ds v t,
    s = serialized_then D ds v t
    /\ cmatch delimiter D = true
    /\ ds <> EmptyString /\ all_s (cmatch digit) ds = true
    /\ v <> EmptyString /\ all_s (cmatch not_quote) v = true
    /\ z = State (Some ";") t [(2, v); (1, ds)].
Proof.
  intros H. unfold re_pattern in H. cbn [seq_of] in H.
  step_char H D s1 HD.
  step_char H a1 s2 Ha1. apply cmatch_char in Ha1 as ->.
  step_char H a2 s3 Ha2. apply cmatch_char in Ha2 as ->.
  rewrite m_seq, m_group in H. step_run H d ds s4 Hd Hds.
  change (String d (ds +:+ s4)) with (String d ds +:+ s4) in H.
  rewrite consumed_app in H.
  step_char H a3 s5 Ha3. apply cmatch_char in Ha3 as ->.
  step_char H a4 s6 Ha4. apply cmatch_char in Ha4 as ->.
  rewrite m_seq, m_group in H. step_run H b v s7 Hb Hv.
  change (String b (v +:+ s7)) with (String b v +:+ s7) in H.
  rewrite consumed_app in H.
  step_char H a5 s8 Ha5. apply cmatch_char in Ha5 as ->.
  apply m_one_inv in H as (a6 & t & Hr & Ha6 & H).
  cbn [rest caps prev] in *. subst. apply cmatch_char in Ha6 as ->.
  injection H as <-.
  exists D, (String d ds), (String b v), t.
  split.
  { unfold serialized_then. simpl. repeat (rewrite app_assoc_s; simpl). reflexivity. }
  split; [exact HD|]. split; [discriminate|].
  split; [cbn [all_s]; now rewrite Hd, Hds|].
  split; [discriminate|].
  split; [cbn [all_s]; now rewrite Hb, Hv|].
  reflexivity.
Qed.

Lemma m_bol ml x c : m ml Bol x c = if at_bol ml x then c x else None.
Proof. reflexivity. Qed.

Lemma m_bol_inv ml x c z : m ml Bol x c = Some z -> at_bol ml x = true /\ c x = Some z.
Proof. simpl. destruct (at_bol ml x); [auto | discriminate]. Qed.

Lemma m_eol_inv ml x c z : m ml Eol x c = Some z -> at_eol ml x = true /\ c x = Some z.
Proof. simpl. destruct (at_eol ml x); [auto | discriminate]. Qed.

(** Whatever the planner's expression matches, its capture is not empty. *)
Lemma value_pattern_inv ml pv s z :
  m ml value_pattern (State pv s []) Some = Some z ->
  exists v, v <> EmptyString /\ caps z = [(1, v)].
Proof.
  intros H. unfold value_pattern in H. cbn [seq_of] in H.
  rewrite m_seq in H. apply m_bol_inv in H as [_ H].
  step_char H D s1 HD.
  step_char H a1 s2 Ha1.
  step_char H a2 s3 Ha2.
  rewrite m_seq in H. step_run H d ds s4 Hd Hds.
  step_char H a3 s5 Ha3.
  step_char H a4 s6 Ha4.
  rewrite m_seq, m_group in H. step_run H b v s7 Hb Hv.
  change (String b (v +:+ s7)) with (String b v +:+ s7) in H.
  rewrite consumed_app in H.
  step_char H a5 s8 Ha5.
  step_char H a6 s9 Ha6.
  apply m_eol_inv in H as [_ H]. injection H as <-.
  exists (String b v). split; [discriminate | reflexivity].
Qed.


(** A greedy run of dots in front of the closing quote and semicolon that end
    the input: it runs to the end, and backs up twice. *)
Lemma repeat_dot_tail ml (c : cont) z :
  (forall pv' cs', c (State pv' ";" cs') = None) ->
  (forall pv' cs', c (State pv' EmptyString cs') = None) ->
  forall w pv cs fuel,
    all_s (cmatch PDot) w = true -> slen (w +:+ String dq ";") < fuel ->
    c (State (last_char pv w) (String dq ";") cs) = Some z ->
    repeat (m ml (One PDot)) (clear_caps (One PDot)) true fuel
      (State pv (w +:+ String dq ";") cs) c = Some z.
Proof.
  intros Hsemi Hend. induction w as [|a w IH]; intros pv cs fuel Hall Hfuel Hc.
  - destruct fuel as [|[|[|n]]]; try (simpl in Hfuel; lia).
    simpl String.append. simpl last_char in Hc.
    rewrite repeat_greedy, clear_caps_one, m_one.
    change (cmatch PDot dq) with true. cbn [rest]. rewrite slen_tail_neq.
    rewrite repeat_greedy, clear_caps_one, m_one.
    change (cmatch PDot ";") with true. cbn [rest]. rewrite slen_tail_neq.
    rewrite repeat_greedy, clear_caps_one. cbn [m rest].
    rewrite Hend, Hsemi. exact Hc.
  - destruct fuel as [|n]; [simpl in Hfuel; lia|].
    cbn [all_s] in Hall. apply andb_true_iff in Hall as [Ha Hall].
    change (String a w +:+ String dq ";") with (String a (w +:+ String dq ";")).
    rewrite repeat_greedy, clear_caps_one, m_one, Ha. cbn [rest].
    rewrite slen_tail_neq.
    rewrite (IH (Some a) cs n Hall); [reflexivity | | exact Hc].
    simpl in Hfuel. lia.
Qed.

(** [re2] decomposes a serialized string whose value holds no line
    terminator. *)
Lemma re2_pattern_match D ds v :
  cmatch PDot D = true ->
  ds <> EmptyString -> all_s (cmatch digit) ds = true ->
  all_s (cmatch PDot) v = true ->
  m false re2_pattern (State None (serialized D ds v) []) Some
  = Some (State (Some ";") EmptyString [(2, v); (1, ds)]).
Proof.
  intros HD Hne Hds Hv.
  destruct ds as [|d ds]; [congruence|].
  cbn [all_s] in Hds. apply andb_true_iff in Hds as [Hd Hds].
  unfold re2_pattern, serialized, serialized_then. cbn [seq_of]. simpl String.append.
  rewrite m_seq, m_bol. cbn [at_bol prev].
  rewrite m_seq, m_one, HD.
  rewrite m_seq, m_one. simpl (cmatch _ _).
  rewrite m_seq, m_one. simpl (cmatch _ _).
  rewrite m_seq, m_group.
  apply plus_one_run; [exact Hd | exact Hds | reflexivity |].
  cbn [rest caps prev].
  change (String d (ds +:+ String ":" (String dq (v +:+ String dq ";"))))
    with (String d ds +:+ String ":" (String dq (v +:+ String dq ";"))).
  rewrite consumed_app.
  rewrite m_seq, m_one. simpl (cmatch _ _).
  rewrite m_seq, m_one. simpl (cmatch _ _).
  rewrite !Ascii.eqb_refl.
  rewrite m_seq, m_group.
  change (m false (Star true (One PDot))
            (State (Some dq) (v +:+ String dq ";") (set_cap 1 (String d ds) [])))
    with (repeat (m false (One PDot)) (clear_caps (One PDot)) true
            (S (slen (v +:+ String dq ";")))
            (State (Some dq) (v +:+ String dq ";") (set_cap 1 (String d ds) []))).
  apply repeat_dot_tail; try reflexivity; [exact Hv | lia |].
  cbn [rest caps prev]. rewrite consumed_app. reflexivity.
Qed.

Lemma dot_of_delimiter (D : ascii) : cmatch delimiter D = true -> cmatch PDot D = true.
Proof. intros H. apply cmatch_delimiter in H as [-> | [-> | ->]]; reflexivity. Qed.

Lemma token_of_match_serialized D ds v :
  cmatch delimiter D = true ->
  ds <> EmptyString -> all_s (cmatch digit) ds = true ->
  all_s (cmatch PDot) v = true ->
  token_of_match (serialized D ds v)
  = Ok (Token (serialized D ds v) (parseInt ds) v).
Proof.
  intros HD Hne Hds Hv. unfold token_of_match, match_first, exec.
  cbn [re_multiline re_ast re_groups].
  rewrite (search_here _ _ _ _ _
             (re2_pattern_match D ds v (dot_of_delimiter D HD) Hne Hds Hv)).
  unfold matched, captures. cbn [m_start m_end rest caps].
  rewrite consumed_all. reflexivity.
Qed.

(** ** Where [re] cannot match *)

Lemma count_q_app (a b : string) : count_q (a +:+ b) = count_q a + count_q b.
Proof. induction a as [|x a IH]; simpl; [reflexivity | rewrite IH; lia]. Qed.


Lemma digit_not_quote (c : ascii) : cmatch digit c = true -> Ascii.eqb c dq = false.
Proof.
  intros H. destruct (Ascii.eqb_spec c dq) as [->|_]; [|reflexivity].
  discriminate H.
Qed.



Lemma re_pattern_two_quotes ml pv u z :
  m ml re_pattern (State pv u []) Some = Some z -> 2 <= count_q u.
Proof.
  intros H. apply re_pattern_inv in H as (D & ds & v & t & -> & _).
  unfold serialized_then. simpl. rewrite !count_q_app. simpl.
  rewrite !count_q_app. simpl. destruct (Ascii.eqb D dq); lia.
Qed.

Lemma search_few_quotes ml :
  forall s pv, count_q s < 2 -> search ml re_pattern pv s = None.
Proof.
  induction s as [|a s IH]; intros pv H; cbn [search].
  - destruct (m ml re_pattern (State pv EmptyString []) Some) eqn:E; [|reflexivity].
    apply re_pattern_two_quotes in E. lia.
  - destruct (m ml re_pattern (State pv (String a s) []) Some) eqn:E.
    + apply re_pattern_two_quotes in E. lia.
    + apply IH. simpl in H. destruct (Ascii.eqb a dq); lia.
Qed.




Lemma search_all_step n ml r p s :
  search_all (S n) ml r p s
  = match search ml r p s with
    | None => []
    | Some res =>
      res ::
      (if Nat.eqb (slen (m_start res)) (slen (rest (m_end res))) then
         match rest (m_end res) with
         | EmptyString => []
         | String c s' => search_all n ml r (Some c) s'
         end
       else search_all n ml r (prev (m_end res)) (rest (m_end res)))
    end.
Proof. reflexivity. Qed.

Lemma plan_token re re2 replace_ strings p :
  In p (plan re re2 replace_ strings) -> In (p_token p) strings.
Proof.
  unfold plan. intros H. apply List.filter_In in H as [H _].
  apply List.in_map_iff in H as (s & <- & Hs).
  unfold plan_string. destruct (test re (source s)); exact Hs.
Qed.

(** ** Adjacent serialized strings *)


(** ** The empties of the plan *)

(** The length the planner records is 0 for the empty rewrite only. *)
Lemma rewrite_chars_zero (rv : string) :
  slen (str_replace rv (MkRegExp value_pattern 1 false false) "$1") = 0
  <-> rv = EmptyString.
Proof.
  split; [|intros ->; reflexivity].
  intros H. destruct rv as [|a rv]; [reflexivity|exfalso].
  unfold str_replace, exec in H. cbn [re_global re_groups re_multiline re_ast] in H.
  destruct (search false value_pattern None (String a rv)) as [r|] eqn:E.
  - apply search_found in E as [pv' Hm].
    apply value_pattern_inv in Hm as (v & Hv & Hcaps).
    cbn [splice] in H. unfold captures in H. rewrite Hcaps in H.
    change (GetSubstitution (matched r) (consumed (String a rv) (m_start r))
              (rest (m_end r)) (List.map (get_cap [(1, v)]) (seq 1 1)) "$1")
      with (v +:+ EmptyString) in H.
    rewrite !slen_app in H. apply slen_pos in Hv. lia.
  - cbn [splice] in H. discriminate H.
Qed.

Lemma plan_string_kept re re2 replace_ s :
  test re (source s) = true ->
  negb (Nat.eqb (rewriteChars (plan_string re re2 replace_ s)) 0) = true
  <-> str_replace (source s) re2 replace_ <> EmptyString.
Proof.
  intros Ht. unfold plan_string. rewrite Ht. cbn [rewriteChars].
  rewrite negb_true_iff, Nat.eqb_neq, rewrite_chars_zero. reflexivity.
Qed.

Lemma plan_string_dropped re re2 replace_ s :
  test re (source s) = false ->
  negb (Nat.eqb (rewriteChars (plan_string re re2 replace_ s)) 0) = false.
Proof. intros Ht. unfold plan_string. rewrite Ht. reflexivity. Qed.

(** What the filter of the plan removes: a string that the find pattern
    matches stays out of the plan exactly when the substitution leaves
    nothing of its whole source text; and when that happens to every matched
    string, the loop of the non-verbose run returns the document as it
    was. *)
Theorem plan_drops_emptied_sources (sql find replace_ : string)
    (strings : list token) (re re2 : RegExp) :
  findSerializedStrings sql = Ok strings ->
  newRegExp find false false = Ok re ->
  newRegExp find true false = Ok re2 ->
  (forall s, In s strings -> test re (source s) = true ->
     (In (plan_string re re2 replace_ s) (plan re re2 replace_ strings)
      <-> str_replace (source s) re2 replace_ <> EmptyString))
  /\ ((forall s, In s strings -> test re (source s) = true ->
         str_replace (source s) re2 replace_ = EmptyString) ->
      plan re re2 replace_ strings = []
      /\ rewriteSerializedSql false sql find replace_ = Ok sql).
Proof.
  intros Hscan Hre Hre2. split.
  - intros s Hs Ht. unfold plan. rewrite List.filter_In.
    rewrite (plan_string_kept re re2 replace_ s Ht).
    split; [tauto|]. intros H. split; [|exact H].
    apply List.in_map. exact Hs.
  - intros Hall.
    assert (Hplan : plan re re2 replace_ strings = []).
    { unfold plan. clear Hscan. induction strings as [|s l IH]; [reflexivity|].
      cbn [List.map List.filter].
      destruct (test re (source s)) eqn:Ht.
      - destruct (negb (Nat.eqb (rewriteChars (plan_string re re2 replace_ s)) 0)) eqn:Hk.
        + apply (plan_string_kept re re2 replace_ s Ht) in Hk.
          exfalso. apply Hk. apply Hall; [left; reflexivity | exact Ht].
        + apply IH. intros s' Hs'. apply Hall. right. exact Hs'.
      - rewrite (plan_string_dropped re re2 replace_ s Ht).
        apply IH. intros s' Hs'. apply Hall. right. exact Hs'. }
    split; [exact Hplan|].
    unfold rewriteSerializedSql. rewrite Hscan. cbn [rbind].
    rewrite Hre. cbn [rbind]. rewrite Hre2. cbn [rbind].
    rewrite Hplan. cbn [each_patch].
    destruct (Nat.eqb _ 0); reflexivity.
Qed.

Lemma plan_drops_emptied_sources_witness :
  rewriteSerializedSql false (";s:1:" +:+ q +:+ "a" +:+ q +:+ ";") ".+" "$`"
  = Ok (";s:1:" +:+ q +:+ "a" +:+ q +:+ ";").
Proof.
  refine (proj2 (proj2 (plan_drops_emptied_sources
            (";s:1:" +:+ q +:+ "a" +:+ q +:+ ";") ".+" "$`"
            [Token (";s:1:" +:+ q +:+ "a" +:+ q +:+ ";") 1 "a"]
            (MkRegExp (Plus true (One PDot)) 0 false false)
            (MkRegExp (Plus true (One PDot)) 0 true false) _ _ _) _)).
  - vm_compute. reflexivity.
  - vm_compute. reflexivity.
  - vm_compute. reflexivity.
  - intros s [<- | []] _. vm_compute. reflexivity.
Defined.

(** ** The fuel of the two loops is never used up

    The matcher calls its continuation only at positions not before the one
    it started from, and nothing else of the continuation matters.  Hence an
    iteration of [repeat], which must consume something, leaves fewer
    characters, and any fuel above the number of characters left gives the
    same result; likewise for the rounds of [search_all]. *)

Lemma rest_clear_caps r x : rest (clear_caps r x) = rest x.
Proof. reflexivity. Qed.

Section RepeatFuel.

Variables (mr : state -> cont -> option state) (r : regex) (g : bool).
Hypothesis Hmr : forward mr.

Lemma repeat_forward :
  forall fuel x c c',
    (forall y, slen (rest y) <= slen (rest x) -> c y = c' y) ->
    repeat mr (clear_caps r) g fuel x c = repeat mr (clear_caps r) g fuel x c'.
Proof.
  induction fuel as [|n IH]; intros x c c' Hc; cbn [repeat].
  - apply Hc. lia.
  - assert (Hd : mr (clear_caps r x)
                   (fun y => if Nat.eqb (slen (rest y)) (slen (rest x)) then None
                             else repeat mr (clear_caps r) g n y c)
                 = mr (clear_caps r x)
                   (fun y => if Nat.eqb (slen (rest y)) (slen (rest x)) then None
                             else repeat mr (clear_caps r) g n y c')).
    { apply Hmr. intros y Hy. rewrite rest_clear_caps in Hy.
      destruct (Nat.eqb (slen (rest y)) (slen (rest x))); [reflexivity|].
      apply IH. intros y' Hy'. apply Hc. lia. }
    rewrite Hd, (Hc x) by lia. reflexivity.
Qed.

Theorem repeat_fuel_irrelevant :
  forall n1 n2 x c,
    slen (rest x) < n1 -> slen (rest x) < n2 ->
    repeat mr (clear_caps r) g n1 x c = repeat mr (clear_caps r) g n2 x c.
Proof.
  induction n1 as [|a IH]; intros n2 x c H1 H2; [lia|].
  destruct n2 as [|b]; [lia|]. cbn [repeat].
  assert (Hd : mr (clear_caps r x)
                 (fun y => if Nat.eqb (slen (rest y)) (slen (rest x)) then None
                           else repeat mr (clear_caps r) g a y c)
               = mr (clear_caps r x)
                 (fun y => if Nat.eqb (slen (rest y)) (slen (rest x)) then None
                           else repeat mr (clear_caps r) g b y c)).
  { apply Hmr. intros y Hy. rewrite rest_clear_caps in Hy.
    destruct (Nat.eqb (slen (rest y)) (slen (rest x))) eqn:E; [reflexivity|].
    apply Nat.eqb_neq in E. apply IH; lia. }
  rewrite Hd. reflexivity.
Qed.

End RepeatFuel.

Lemma m_forward ml r : forward (m ml r).
Proof.
  induction r as [|p| | |r1 IH1 r2 IH2|r1 IH1 r2 IH2|g r IH|g r IH|g r IH|i r IH];
    intros x c c' Hc; cbn [m].
  - apply Hc. lia.
  - destruct (rest x) as [|a s] eqn:Hr; [reflexivity|].
    destruct (cmatch p a); [|reflexivity]. apply Hc. simpl. lia.
  - rewrite (Hc x) by lia. reflexivity.
  - rewrite (Hc x) by lia. reflexivity.
  - apply IH1. intros y Hy. apply IH2. intros y' Hy'. apply Hc. lia.
  - rewrite (IH1 x c c' Hc), (IH2 x c c' Hc). reflexivity.
  - apply repeat_forward; assumption.
  - apply IH. intros y Hy. rewrite rest_clear_caps in Hy.
    apply repeat_forward; [assumption|]. intros y' Hy'. apply Hc. lia.
  - assert (Hd : m ml r (clear_caps r x)
                   (fun y => if Nat.eqb (slen (rest y)) (slen (rest x)) then None else c y)
                 = m ml r (clear_caps r x)
                   (fun y => if Nat.eqb (slen (rest y)) (slen (rest x)) then None else c' y)).
    { apply IH. intros y Hy. rewrite rest_clear_caps in Hy.
      destruct (Nat.eqb (slen (rest y)) (slen (rest x))); [reflexivity|].
      apply Hc. exact Hy. }
    rewrite Hd, (Hc x) by lia. reflexivity.
  - apply IH. intros y Hy. apply Hc. exact Hy.
Qed.

(** What the matcher returns, its continuation returned, at a position not
    before the start. *)
Lemma repeat_result mr r g :
  (forall x c z, mr x c = Some z ->
     exists y, slen (rest y) <= slen (rest x) /\ c y = Some z) ->
  forall fuel x c z,
    repeat mr (clear_caps r) g fuel x c = Some z ->
    exists y, slen (rest y) <= slen (rest x) /\ c y = Some z.
Proof.
  intros Hmr. induction fuel as [|n IH]; intros x c z H; cbn [repeat] in H.
  - exists x. auto.
  - assert (Hiter : forall z',
        mr (clear_caps r x)
          (fun y => if Nat.eqb (slen (rest y)) (slen (rest x)) then None
                    else repeat mr (clear_caps r) g n y c) = Some z' ->
        exists y, slen (rest y) <= slen (rest x) /\ c y = Some z').
    { intros z' Hz. apply Hmr in Hz as (y & Hy & Hz). rewrite rest_clear_caps in Hy.
      destruct (Nat.eqb (slen (rest y)) (slen (rest x))); [discriminate|].
      apply IH in Hz as (y' & Hy' & Hz). exists y'. split; [lia | exact Hz]. }
    destruct g.
    + destruct (mr (clear_caps r x) _) as [z'|] eqn:E.
      * injection H as <-. apply Hiter. reflexivity.
      * exists x. auto.
    + destruct (c x) as [z'|] eqn:E.
      * injection H as <-. exists x. auto.
      * apply Hiter. exact H.
Qed.

Lemma m_result ml r :
  forall x c z, m ml r x c = Some z ->
    exists y, slen (rest y) <= slen (rest x) /\ c y = Some z.
Proof.
  induction r as [|p| | |r1 IH1 r2 IH2|r1 IH1 r2 IH2|g r IH|g r IH|g r IH|i r IH];
    intros x c z H; cbn [m] in H.
  - exists x. auto.
  - destruct (rest x) as [|a s] eqn:Hr; [discriminate|].
    destruct (cmatch p a); [|discriminate].
    eexists. split; [|exact H]. simpl. lia.
  - destruct (at_bol ml x); [|discriminate]. exists x. auto.
  - destruct (at_eol ml x); [|discriminate]. exists x. auto.
  - apply IH1 in H as (y & Hy & H). apply IH2 in H as (y' & Hy' & H).
    exists y'. split; [lia | exact H].
  - destruct (m ml r1 x c) as [z'|] eqn:E.
    + injection H as <-. apply IH1. exact E.
    + apply IH2. exact H.
  - apply (repeat_result _ _ _ IH) in H. exact H.
  - apply IH in H as (y & Hy & H). rewrite rest_clear_caps in Hy.
    apply (repeat_result _ _ _ IH) in H as (y' & Hy' & H).
    exists y'. split; [lia | exact H].
  - assert (Hiter : forall z',
        m ml r (clear_caps r x)
          (fun y => if Nat.eqb (slen (rest y)) (slen (rest x)) then None else c y)
        = Some z' ->
        exists y, slen (rest y) <= slen (rest x) /\ c y = Some z').
    { intros z' Hz. apply IH in Hz as (y & Hy & Hz). rewrite rest_clear_caps in Hy.
      destruct (Nat.eqb (slen (rest y)) (slen (rest x))); [discriminate|].
      exists y. auto. }
    destruct g.
    + destruct (m ml r (clear_caps r x) _) as [z'|] eqn:E.
      * injection H as <-. apply Hiter. reflexivity.
      * exists x. auto.
    + destruct (c x) as [z'|] eqn:E.
      * injection H as <-. exists x. auto.
      * apply Hiter. exact H.
  - apply IH in H as (y & Hy & H). eexists. split; [|exact H]. exact Hy.
Qed.

Lemma search_bounds ml r :
  forall s pv res,
    search ml r pv s = Some res ->
    slen (rest (m_end res)) <= slen (m_start res) /\ slen (m_start res) <= slen s.
Proof.
  induction s as [|a s IH]; intros pv res H; cbn [search] in H.
  - destruct (m ml r (State pv EmptyString []) Some) as [y|] eqn:Hm; [|discriminate].
    injection H as <-. apply m_result in Hm as (y' & Hy & Hm).
    injection Hm as ->. cbn [m_start m_end rest] in *. lia.
  - destruct (m ml r (State pv (String a s) []) Some) as [y|] eqn:Hm.
    + injection H as <-. apply m_result in Hm as (y' & Hy & Hm).
      injection Hm as ->. cbn [m_start m_end rest] in *. lia.
    + apply IH in H. simpl. lia.
Qed.

Theorem search_all_fuel_irrelevant ml r :
  forall n1 n2 pv s,
    slen s < n1 -> slen s < n2 ->
    search_all n1 ml r pv s = search_all n2 ml r pv s.
Proof.
  induction n1 as [|a IH]; intros n2 pv s H1 H2; [lia|].
  destruct n2 as [|b]; [lia|]. rewrite !search_all_step.
  destruct (search ml r pv s) as [res|] eqn:E; [|reflexivity].
  apply search_bounds in E as [Hend Hstart]. f_equal.
  destruct (Nat.eqb (slen (m_start res)) (slen (rest (m_end res)))) eqn:Heq.
  - destruct (rest (m_end res)) as [|c s'] eqn:Hr; [reflexivity|].
    simpl in Hend. apply IH; lia.
  - apply Nat.eqb_neq in Heq. apply IH; lia.
Qed.

(** ** The two loops, when the plan is full *)

Lemma plan_length_full re re2 replace_ strings :
  (forall s, In s strings -> test re (source s) = true ->
     str_replace (source s) re2 replace_ <> EmptyString) ->
  length (plan re re2 replace_ strings)
  = length (List.filter (fun s => test re (source s)) strings).
Proof.
  unfold plan. induction strings as [|s l IH]; intros Hall; [reflexivity|].
  cbn [List.map List.filter].
  assert (IH' := IH (fun s' Hs' => Hall s' (or_intror Hs'))).
  destruct (test re (source s)) eqn:Ht.
  - assert (Hk : negb (Nat.eqb (rewriteChars (plan_string re re2 replace_ s)) 0) = true).
    { apply (plan_string_kept re re2 replace_ s Ht).
      apply Hall; [left; reflexivity | exact Ht]. }
    rewrite Hk. cbn [length]. rewrite IH'. reflexivity.
  - rewrite (plan_string_dropped re re2 replace_ s Ht). exact IH'.
Qed.

(** Unless a matched string was emptied, the verbose run and the non-verbose
    run rewrite the document alike. *)
Lemma verbose_agrees_on_full_plan (sql find replace_ : string)
    (strings : list token) (re re2 : RegExp) :
  findSerializedStrings sql = Ok strings ->
  newRegExp find false false = Ok re ->
  newRegExp find true false = Ok re2 ->
  (forall s, In s strings -> test re (source s) = true ->
     str_replace (source s) re2 replace_ <> EmptyString) ->
  rewriteSerializedSql true sql find replace_
  = rewriteSerializedSql false sql find replace_.
Proof.
  intros Hscan Hre Hre2 Hall. unfold rewriteSerializedSql.
  rewrite Hscan. cbn [rbind]. rewrite Hre. cbn [rbind]. rewrite Hre2. cbn [rbind].
  rewrite <- (plan_length_full re re2 replace_ strings Hall).
  destruct (Nat.eqb _ 0); [reflexivity|].
  apply loops_agree_on_full_plan.
Qed.

(** ** The scanner on values without line terminators *)

Lemma search_all_found ml r :
  forall fuel pv s res,
    In res (search_all fuel ml r pv s) ->
    exists pv', m ml r (State pv' (m_start res) []) Some = Some (m_end res).
Proof.
  induction fuel as [|n IH]; intros pv s res H; [destruct H|].
  rewrite search_all_step in H.
  destruct (search ml r pv s) as [r0|] eqn:E; [|destruct H].
  destruct H as [<- | H].
  - apply search_found in E. exact E.
  - destruct (Nat.eqb _ _).
    + destruct (rest (m_end r0)) as [|c s']; [destruct H|]. apply IH in H. exact H.
    + apply IH in H. exact H.
Qed.

Lemma match_global_default re s :
  default [] (match_global re s) = List.map matched (exec_all re s).
Proof. unfold match_global. destruct (exec_all re s); reflexivity. Qed.

(** Every text that [re] matches is a delimiter and a serialized string. *)
Lemma matches_are_serialized (sql mt : string) :
  In mt (default [] (match_global (MkRegExp re_pattern 2 true false) sql)) ->
  exists D ds v,
    mt = serialized D ds v /\ cmatch delimiter D = true
    /\ ds <> EmptyString /\ all_s (cmatch digit) ds = true
    /\ v <> EmptyString /\ all_s (cmatch not_quote) v = true.
Proof.
  rewrite match_global_default. intros H.
  apply List.in_map_iff in H as (res & <- & H).
  unfold exec_all in H. apply search_all_found in H as [pv' H].
  cbn [re_multiline re_ast] in H.
  apply re_pattern_inv in H as (D & ds & v & t & Hs & HD & Hn & Hds & Hnv & Hv & Hz).
  exists D, ds, v. unfold matched. rewrite Hs, Hz. cbn [rest].
  rewrite <- serialized_app, consumed_app. auto 7.
Qed.

Lemma mapM_Forall2 {A B} (f : A -> result B) (P : A -> B -> Prop) (l : list A) :
  (forall a, In a l -> exists b, f a = Ok b /\ P a b) ->
  exists bs, mapM f l = Ok bs /\ Forall2 P l bs.
Proof.
  induction l as [|a l IH]; intros H.
  - exists []. split; [reflexivity | constructor].
  - destruct (H a (or_introl eq_refl)) as (b & Hb & HP).
    destruct (IH (fun a' Ha' => H a' (or_intror Ha'))) as (bs & Hbs & HF).
    exists (b :: bs). cbn [mapM]. rewrite Hb. cbn [rbind]. rewrite Hbs.
    split; [reflexivity | constructor; assumption].
Qed.

(** When no matched text holds a line terminator, the scanner returns one
    token per match of [re], in order: its source is the matched text, its
    length the number written in the digits, its value the text between the
    quotes. *)
Lemma scanner_returns_matches (sql : string) :
  (forall mt, In mt (default [] (match_global (MkRegExp re_pattern 2 true false) sql)) ->
     all_s (cmatch PDot) mt = true) ->
  exists tokens,
    findSerializedStrings sql = Ok tokens
    /\ Forall2 (fun mt t =>
         source t = mt
         /\ exists D ds v,
              mt = serialized D ds v /\ chars t = parseInt ds /\ value t = v)
       (default [] (match_global (MkRegExp re_pattern 2 true false) sql)) tokens.
Proof.
  intros Hdot. unfold findSerializedStrings. apply mapM_Forall2.
  intros mt Hin.
  destruct (matches_are_serialized sql mt Hin)
    as (D & ds & v & -> & HD & Hn & Hds & Hnv & Hv).
  assert (Hvdot : all_s (cmatch PDot) v = true).
  { specialize (Hdot _ Hin). unfold serialized, serialized_then in Hdot.
    cbn [all_s] in Hdot. apply andb_true_iff in Hdot as [_ Hdot].
    simpl String.append in Hdot. cbn [all_s] in Hdot.
    apply andb_true_iff in Hdot as [_ Hdot]. apply andb_true_iff in Hdot as [_ Hdot].
    rewrite all_s_app in Hdot. apply andb_true_iff in Hdot as [_ Hdot].
    simpl String.append in Hdot. cbn [all_s] in Hdot.
    apply andb_true_iff in Hdot as [_ Hdot]. apply andb_true_iff in Hdot as [_ Hdot].
    rewrite all_s_app in Hdot. apply andb_true_iff in Hdot as [Hdot _]. exact Hdot. }
  exists (Token (serialized D ds v) (parseInt ds) v).
  split; [apply token_of_match_serialized; assumption|].
  split; [reflexivity|]. exists D, ds, v. auto.
Qed.

(** ** More on the serialized stage *)

Lemma newRegExp_flags pattern g ml g' ml' re :
  newRegExp pattern g ml = Ok re ->
  newRegExp pattern g' ml' = Ok (MkRegExp (re_ast re) (re_groups re) g' ml').
Proof.
  unfold newRegExp. destruct (parse pattern) as [[r n]|e]; cbn [rbind]; [|discriminate].
  intros H. injection H as <-. reflexivity.
Qed.

Lemma test_flags re g :
  test (MkRegExp (re_ast re) (re_groups re) g (re_multiline re)) = test re.
Proof. reflexivity. Qed.

Lemma no_strings_no_rewrite verbose sql find replace_ re :
  findSerializedStrings sql = Ok [] ->
  newRegExp find false false = Ok re ->
  rewriteSerializedSql verbose sql find replace_ = Ok sql.
Proof.
  intros Hscan Hre. unfold rewriteSerializedSql.
  rewrite Hscan. cbn [rbind]. rewrite Hre. cbn [rbind].
  rewrite (newRegExp_flags _ _ _ true false _ Hre). reflexivity.
Qed.

(** When the find pattern matches none of the scanned strings, the stage
    returns the document as it is, verbose or not. *)
Theorem unmatched_strings_leave_document (verbose : bool)
    (sql find replace_ : string) (strings : list token) (re : RegExp) :
  findSerializedStrings sql = Ok strings ->
  newRegExp find false false = Ok re ->
  (forall s, In s strings -> test re (source s) = false) ->
  rewriteSerializedSql verbose sql find replace_ = Ok sql.
Proof.
  intros Hscan Hre Hall. unfold rewriteSerializedSql.
  rewrite Hscan. cbn [rbind]. rewrite Hre. cbn [rbind].
  rewrite (newRegExp_flags _ _ _ true false _ Hre). cbn [rbind].
  replace (List.filter (fun s => test re (source s)) strings) with (@nil token).
  - reflexivity.
  - symmetry. clear Hscan. induction strings as [|s l IH]; [reflexivity|].
    cbn [List.filter]. rewrite (Hall s (or_introl eq_refl)).
    apply IH. intros s' Hs'. apply Hall. right. exact Hs'.
Qed.

Lemma unmatched_strings_leave_document_witness :
  rewriteSerializedSql true (";s:5:" +:+ q +:+ "hello" +:+ q +:+ ";") "bye" "hi"
  = Ok (";s:5:" +:+ q +:+ "hello" +:+ q +:+ ";").
Proof.
  apply (unmatched_strings_leave_document true _ "bye" "hi"
           [Token (";s:5:" +:+ q +:+ "hello" +:+ q +:+ ";") 5 "hello"]
           (MkRegExp (seq_of (literal_terms "bye")) 0 false false)).
  - vm_compute. reflexivity.
  - vm_compute. reflexivity.
  - intros s [<- | []]. vm_compute. reflexivity.
Defined.

(** A document with fewer than two double quotes holds no serialized
    string, and the stage returns it as it is. *)
Theorem few_quotes_no_strings (sql : string) :
  count_q sql < 2 ->
  findSerializedStrings sql = Ok []
  /\ forall verbose find replace_ re,
       newRegExp find false false = Ok re ->
       rewriteSerializedSql verbose sql find replace_ = Ok sql.
Proof.
  intros H.
  assert (Hscan : findSerializedStrings sql = Ok []).
  { unfold findSerializedStrings, match_global, exec_all.
    cbn [re_multiline re_ast]. rewrite search_all_step.
    rewrite (search_few_quotes false sql None H). reflexivity. }
  split; [exact Hscan|].
  intros verbose find replace_ re Hre.
  exact (no_strings_no_rewrite verbose sql find replace_ re Hscan Hre).
Qed.

Lemma few_quotes_no_strings_witness :
  findSerializedStrings ("x='it" +:+ q +:+ "s';") = Ok [].
Proof.
  apply (few_quotes_no_strings ("x='it" +:+ q +:+ "s';")). vm_compute. lia.
Defined.

(** What is in a plan: strings that were scanned, in the order of the scan,
    each matched by the find pattern, with its rewritten source text (never
    null, never empty) and a length that is not 0. *)
Theorem plan_entries (re re2 : RegExp) (replace_ : string) (strings : list token) :
  sublist (List.map p_token (plan re re2 replace_ strings)) strings
  /\ forall p, In p (plan re re2 replace_ strings) ->
       In (p_token p) strings
       /\ test re (source (p_token p)) = true
       /\ rewriteValue p = Some (str_replace (source (p_token p)) re2 replace_)
       /\ str_replace (source (p_token p)) re2 replace_ <> EmptyString
       /\ rewriteChars p <> 0.
Proof.
  split.
  - unfold plan. induction strings as [|s l IH]; [constructor|].
    cbn [List.map List.filter].
    destruct (negb (Nat.eqb (rewriteChars (plan_string re re2 replace_ s)) 0)).
    + cbn [List.map].
      replace (p_token (plan_string re re2 replace_ s)) with s
        by (unfold plan_string; destruct (test re (source s)); reflexivity).
      apply sublist_skip. exact IH.
    + apply sublist_cons. exact IH.
  - intros p Hp. split; [apply (plan_token re re2 replace_); exact Hp|].
    unfold plan in Hp. apply List.filter_In in Hp as [Hp Hk].
    apply List.in_map_iff in Hp as (s & <- & Hs).
    destruct (test re (source s)) eqn:Ht.
    + assert (Hne := proj1 (plan_string_kept re re2 replace_ s Ht) Hk).
      apply negb_true_iff, Nat.eqb_neq in Hk.
      unfold plan_string in *. rewrite Ht in *. cbn [p_token rewriteValue] in *.
      rewrite Ht. auto.
    + rewrite (plan_string_dropped re re2 replace_ s Ht) in Hk. discriminate.
Qed.

(** ** The timer of the verbose run *)

Lemma interval_short (strings : list planned) :
  forall (done_ : list planned) (n : nat) (sql : string),
    length strings < n ->
    interval (done_ ++ strings) n (length done_) sql
    = match each_patch strings sql with
      | Ok _ => Throw TypeError
      | Throw e => Throw e
      end.
Proof.
  induction strings as [|p ps IH]; intros done_ n sql Hn.
  - destruct n as [|n]; [simpl in Hn; lia|]. cbn [interval each_patch].
    rewrite app_nil_r, lookup_ge_None_2 by lia. reflexivity.
  - destruct n as [|n]; [simpl in Hn; lia|]. cbn [interval each_patch].
    rewrite lookup_app_r by lia.
    replace (length done_ - length done_) with 0 by lia. cbn [lookup list_lookup].
    destruct (patch sql p) as [sql'|e]; cbn [rbind]; [|reflexivity].
    specialize (IH (done_ ++ [p]) n sql').
    rewrite <- app_assoc in IH. cbn [app] in IH.
    rewrite length_app in IH. cbn [length] in IH.
    replace (length done_ + 1) with (S (length done_)) in IH by lia.
    apply IH. simpl in Hn. lia.
Qed.

Lemma plan_length_short re re2 replace_ strings :
  (exists s, In s strings /\ test re (source s) = true
             /\ str_replace (source s) re2 replace_ = EmptyString) ->
  length (plan re re2 replace_ strings)
  < length (List.filter (fun s => test re (source s)) strings).
Proof.
  assert (Hle : forall l,
    length (plan re re2 replace_ l)
    <= length (List.filter (fun s => test re (source s)) l)).
  { unfold plan. induction l as [|s l IH]; [reflexivity|].
    cbn [List.map List.filter]. destruct (test re (source s)) eqn:Ht.
    - destruct (negb _); cbn [length]; lia.
    - rewrite (plan_string_dropped re re2 replace_ s Ht). exact IH. }
  induction strings as [|s l IH]; intros (s0 & Hin & Ht & He); [destruct Hin|].
  unfold plan in *. cbn [List.map List.filter].
  destruct Hin as [<- | Hin].
  - rewrite Ht.
    destruct (negb (Nat.eqb (rewriteChars (plan_string re re2 replace_ s)) 0)) eqn:Hk.
    + apply (plan_string_kept re re2 replace_ s Ht) in Hk. congruence.
    + cbn [length]. specialize (Hle l). unfold plan in Hle. lia.
  - assert (IH' := IH (ex_intro _ s0 (conj Hin (conj Ht He)))).
    destruct (test re (source s)) eqn:Hs.
    + destruct (negb _); cbn [length]; lia.
    + rewrite (plan_string_dropped re re2 replace_ s Hs). exact IH'.
Qed.

(** Whenever the substitution empties a matched string, the verbose run
    returns no document: it throws what the non-verbose run throws, and a
    TypeError when the non-verbose run returns one. *)
Theorem verbose_run_fails_on_emptied_string (sql find replace_ : string)
    (strings : list token) (re re2 : RegExp) :
  findSerializedStrings sql = Ok strings ->
  newRegExp find false false = Ok re ->
  newRegExp find true false = Ok re2 ->
  (exists s, In s strings /\ test re (source s) = true
             /\ str_replace (source s) re2 replace_ = EmptyString) ->
  rewriteSerializedSql true sql find replace_
  = match rewriteSerializedSql false sql find replace_ with
    | Ok _ => Throw TypeError
    | Throw e => Throw e
    end.
Proof.
  intros Hscan Hre Hre2 Hex. unfold rewriteSerializedSql.
  rewrite Hscan. cbn [rbind]. rewrite Hre. cbn [rbind]. rewrite Hre2. cbn [rbind].
  assert (Hlt := plan_length_short re re2 replace_ strings Hex).
  destruct (length (List.filter (fun s => test re (source s)) strings)) as [|n] eqn:Hn;
    [lia|].
  cbn [Nat.eqb].
  apply (interval_short (plan re re2 replace_ strings) [] (S n) sql Hlt).
Qed.

Lemma verbose_run_fails_on_emptied_string_witness :
  rewriteSerializedSql true
    (";s:1:" +:+ q +:+ "a" +:+ q +:+ ";}s:1:" +:+ q +:+ "b" +:+ q +:+ ";") "^;.+" "$`"
  = Throw TypeError.
Proof.
  refine (eq_trans (verbose_run_fails_on_emptied_string
            (";s:1:" +:+ q +:+ "a" +:+ q +:+ ";}s:1:" +:+ q +:+ "b" +:+ q +:+ ";")
            "^;.+" "$`"
            [Token (";s:1:" +:+ q +:+ "a" +:+ q +:+ ";") 1 "a";
             Token ("}s:1:" +:+ q +:+ "b" +:+ q +:+ ";") 1 "b"]
            (MkRegExp (seq_of [Bol; One (PChar ";"); Plus true (One PDot)]) 0 false false)
            (MkRegExp (seq_of [Bol; One (PChar ";"); Plus true (One PDot)]) 0 true false)
            _ _ _ _) _).
  - vm_compute. reflexivity.
  - vm_compute. reflexivity.
  - vm_compute. reflexivity.
  - eexists. split; [left; reflexivity|]. split; vm_compute; reflexivity.
  - vm_compute. reflexivity.
Defined.

(** ** Counting and the plain pass *)

Lemma search_all_length ml r :
  forall fuel pv s, length (search_all fuel ml r pv s) <= fuel.
Proof.
  induction fuel as [|n IH]; intros pv s; [reflexivity|].
  rewrite search_all_step. destruct (search ml r pv s) as [res|]; [|simpl; lia].
  cbn [length]. destruct (Nat.eqb _ _).
  - destruct (rest (m_end res)) as [|c s']; [simpl; lia|].
    specialize (IH (Some c) s'). lia.
  - specialize (IH (prev (m_end res)) (rest (m_end res))). lia.
Qed.

Lemma exec_all_nil re s : exec_all re s = [] <-> exec re s = None.
Proof.
  unfold exec_all, exec. rewrite search_all_step.
  destruct (search (re_multiline re) (re_ast re) None s); split; congruence.
Qed.

(** [countMatches] throws what the construction of the expression throws;
    otherwise it counts at most one match per position of the text, the end
    included, and counts none exactly when the pattern, with the flag [m],
    matches nowhere. *)
Theorem countMatches_bounds (find s : string) :
  match newRegExp find true true with
  | Throw e => countMatches find s None = Throw e
  | Ok re =>
    exists n, countMatches find s None = Ok n
              /\ n <= slen s + 1
              /\ (n = 0 <-> test re s = false)
  end.
Proof.
  unfold countMatches. cbn [default].
  destruct (newRegExp find true true) as [re|e]; cbn [rbind]; [|reflexivity].
  eexists. split; [reflexivity|].
  rewrite match_global_default, length_map. split.
  - unfold exec_all. pose proof (search_all_length (re_multiline re) (re_ast re)
      (S (slen s)) None s). lia.
  - unfold test. destruct (exec re s) as [r0|] eqn:Hx.
    + destruct (exec_all re s) as [|r1 l] eqn:E.
      * apply exec_all_nil in E. congruence.
      * split; discriminate.
    + apply exec_all_nil in Hx. rewrite Hx. split; reflexivity.
Qed.

Lemma str_replace_no_match s re template :
  exec re s = None -> str_replace s re template = s.
Proof.
  intros H. unfold str_replace. rewrite H.
  apply exec_all_nil in H. rewrite H. destruct (re_global re); reflexivity.
Qed.

Lemma with_sql_same d : with_sql (d_sql d) d = d.
Proof. destruct d. reflexivity. Qed.

Lemma rewrite_with (d : data) (re : RegExp) :
  newRegExp (d_find d) true true = Ok re ->
  rewrite d = Ok (with_sql (str_replace (d_sql d) re (d_replace d)) d).
Proof.
  intros Hre. unfold rewrite, countMatches. cbn [default].
  rewrite Hre. cbn [rbind].
  rewrite match_global_default, length_map.
  destruct (exec_all re (d_sql d)) as [|r0 l] eqn:E; [|reflexivity].
  cbn [length Nat.eqb]. apply exec_all_nil in E.
  rewrite (str_replace_no_match _ _ _ E), with_sql_same. reflexivity.
Qed.

(** The count before the replacement changes nothing: whenever the find
    pattern is an expression, the plain pass returns the document with
    every match of it (flags [g] and [m]) replaced. *)
Theorem rewrite_is_replace (d : data) :
  rewrite d
  = (re <- newRegExp (d_find d) true true ;;
     Ok (with_sql (str_replace (d_sql d) re (d_replace d)) d)).
Proof.
  destruct (newRegExp (d_find d) true true) as [re|e] eqn:Hre; cbn [rbind].
  - exact (rewrite_with d re Hre).
  - unfold rewrite, countMatches. cbn [default]. rewrite Hre. reflexivity.
Qed.

(** ** More on the run *)

Lemma option_given (o : option string) :
  truthy o = true <-> exists s, o = Some s /\ s <> EmptyString.
Proof.
  destruct o as [[|c s]|]; simpl; split; try discriminate.
  - intros (s & H & Hs). congruence.
  - intros _. eexists. split; [reflexivity | discriminate].
  - intros _. reflexivity.
  - intros (s & H & _). discriminate.
Qed.

(** The run prints the help, and does nothing else, exactly when one of the
    four options is missing or is the empty string. *)
Theorem help_iff_option_missing (opts : options) (verbose : bool)
    (disk : gmap string node) :
  (ended (main opts verbose disk) = Help
   <-> ~ (truthy (o_input opts) = true /\ truthy (o_output opts) = true
          /\ truthy (o_find opts) = true /\ truthy (o_replace opts) = true))
  /\ (ended (main opts verbose disk) = Help -> main opts verbose disk = Run [] disk Help).
Proof.
  assert (Hall : all_given opts = true
                 <-> truthy (o_input opts) = true /\ truthy (o_output opts) = true
                     /\ truthy (o_find opts) = true /\ truthy (o_replace opts) = true).
  { unfold all_given. cbn [List.filter].
    destruct (truthy (o_input opts)), (truthy (o_output opts)),
      (truthy (o_find opts)), (truthy (o_replace opts)); cbn; intuition discriminate. }
  assert (Hrun : all_given opts = true -> ended (main opts verbose disk) <> Help).
  { intros Hg. unfold main. rewrite Hg. cbn [negb].
    destruct (initialize opts disk) as [d|e].
    2:{ destruct e; discriminate. }
    destruct (reserialize verbose d) as [d1|e].
    2:{ destruct e; discriminate. }
    destruct (rewrite d1) as [d2|e].
    2:{ destruct e; discriminate. }
    unfold complete. destruct (writeFile disk (d_output d2) (d_sql d2)); discriminate. }
  split; [split|].
  - intros H Hg. apply Hall in Hg. apply (Hrun Hg H).
  - intros H. unfold main. destruct (all_given opts) eqn:Hg; [|reflexivity].
    exfalso. apply H. apply Hall. reflexivity.
  - intros H. unfold main. destruct (all_given opts) eqn:Hg; [|reflexivity].
    exfalso. apply (Hrun eq_refl H).
Qed.

Lemma reserialize_keeps verbose d d1 :
  reserialize verbose d = Ok d1 ->
  d_output d1 = d_output d /\ d_find d1 = d_find d /\ d_replace d1 = d_replace d.
Proof.
  unfold reserialize. destruct (countMatches _ _ _) as [n|e]; cbn [rbind]; [|discriminate].
  destruct (Nat.eqb n 0); [intros H; injection H as <-; auto|].
  destruct (rewriteSerializedSql _ _ _ _); cbn [rbind]; [|discriminate].
  intros H. injection H as <-. auto.
Qed.

Lemma rewrite_keeps d d1 :
  rewrite d = Ok d1 ->
  d_output d1 = d_output d /\ d_find d1 = d_find d /\ d_replace d1 = d_replace d.
Proof.
  destruct (newRegExp (d_find d) true true) as [re|e] eqn:Hre.
  - rewrite (rewrite_with d re Hre). intros H. injection H as <-. auto.
  - unfold rewrite, countMatches. cbn [default]. rewrite Hre. discriminate.
Qed.

Lemma initialize_keeps opts disk d :
  initialize opts disk = Ok d ->
  d_output d = opt (o_output opts) /\ d_sql d = readFile disk (opt (o_input opts)).
Proof.
  unfold initialize. destruct (is_empty _); [discriminate|].
  destruct (countMatches _ _ _); cbn [rbind]; [|discriminate].
  intros H. injection H as <-. auto.
Qed.

(** A run changes no path but the output path.  The process ends with code
    0 exactly when the run printed the help, an option missing, or wrote the
    output file.  It comes to [process.exit(0)] exactly when it wrote the
    file, which then reads as the document that the stages returned; the
    run that prints the help enters no stage and writes nothing. *)
Theorem run_writes_only_output (opts : options) (verbose : bool)
    (disk : gmap string node) :
  (forall path, path <> opt (o_output opts) ->
     disk_after (main opts verbose disk) !! path = disk !! path)
  /\ (exit_code (ended (main opts verbose disk)) = 0
      <-> all_given opts = false
          \/ exists contents,
               In (Wrote (opt (o_output opts)) contents)
                  (trace (main opts verbose disk)))
  /\ (ended (main opts verbose disk) = Exit 0
      <-> exists contents,
            In (Wrote (opt (o_output opts)) contents) (trace (main opts verbose disk)))
  /\ (all_given opts = false -> main opts verbose disk = Run [] disk Help)
  /\ (ended (main opts verbose disk) = Exit 0 ->
      exists d d1 d2,
        initialize opts disk = Ok d /\ reserialize verbose d = Ok d1
        /\ rewrite d1 = Ok d2
        /\ readFile (disk_after (main opts verbose disk)) (opt (o_output opts))
           = d_sql d2).
Proof.
  assert (Hfail : forall tr e,
            (forall c, ~ In (Wrote (opt (o_output opts)) c) tr) ->
            let r := failed tr disk e in
            disk_after r = disk
            /\ exit_code (ended r) <> 0 /\ ended r <> Exit 0
            /\ forall c, ~ In (Wrote (opt (o_output opts)) c) (trace r)).
  { intros tr e Htr. destruct e; cbn; repeat split; try discriminate; try exact Htr.
    intros c H. apply in_app_or in H as [H | [H | []]];
      [exact (Htr c H) | discriminate H]. }
  assert (Hno : forall l, (forall x, In x l -> exists st, x = Enter st) ->
                  forall c, ~ In (Wrote (opt (o_output opts)) c) l).
  { intros l Hl c H. destruct (Hl _ H) as (st & E). discriminate E. }
  assert (Hclose : forall r,
            all_given opts = true ->
            disk_after r = disk
            /\ exit_code (ended r) <> 0 /\ ended r <> Exit 0
            /\ (forall c, ~ In (Wrote (opt (o_output opts)) c) (trace r)) ->
            (forall path, path <> opt (o_output opts) ->
               disk_after r !! path = disk !! path)
            /\ (exit_code (ended r) = 0
                <-> all_given opts = false
                    \/ exists contents, In (Wrote (opt (o_output opts)) contents) (trace r))
            /\ (ended r = Exit 0
                <-> exists contents, In (Wrote (opt (o_output opts)) contents) (trace r))
            /\ (all_given opts = false -> r = Run [] disk Help)
            /\ (ended r = Exit 0 ->
                exists d d1 d2,
                  initialize opts disk = Ok d /\ reserialize verbose d = Ok d1
                  /\ rewrite d1 = Ok d2
                  /\ readFile (disk_after r) (opt (o_output opts)) = d_sql d2)).
  { intros r Hg (Hd & Hc & He & Hw). rewrite Hg.
    split; [intros path _; rewrite Hd; reflexivity|].
    split; [split; [intros H; contradiction
                   | intros [H | (c & H)]; [discriminate H | destruct (Hw c H)]]|].
    split; [split; [intros H; contradiction | intros (c & H); destruct (Hw c H)]|].
    split; [discriminate|]. intros H. contradiction. }
  assert (Hwritten : forall d d1 d2,
            all_given opts = true ->
            initialize opts disk = Ok d -> reserialize verbose d = Ok d1 ->
            rewrite d1 = Ok d2 ->
            let r := Run [Enter Initialize; Enter Reserialize; Enter Rewrite;
                          Enter Complete; Wrote (opt (o_output opts)) (d_sql d2)]
                       (<[opt (o_output opts) := File (d_sql d2)]> disk) (Exit 0) in
            (forall path, path <> opt (o_output opts) ->
               disk_after r !! path = disk !! path)
            /\ (exit_code (ended r) = 0
                <-> all_given opts = false
                    \/ exists contents, In (Wrote (opt (o_output opts)) contents) (trace r))
            /\ (ended r = Exit 0
                <-> exists contents, In (Wrote (opt (o_output opts)) contents) (trace r))
            /\ (all_given opts = false -> r = Run [] disk Help)
            /\ (ended r = Exit 0 ->
                exists d d1 d2,
                  initialize opts disk = Ok d /\ reserialize verbose d = Ok d1
                  /\ rewrite d1 = Ok d2
                  /\ readFile (disk_after r) (opt (o_output opts)) = d_sql d2)).
  { intros d d1 d2 Hg Hi Hr Hw r. rewrite Hg. subst r.
    cbn [disk_after ended trace exit_code].
    split; [intros path Hp; apply lookup_insert_ne; congruence|].
    split; [split; [intros _; right; exists (d_sql d2); simpl; auto 10 | reflexivity]|].
    split; [split; [intros _; exists (d_sql d2); simpl; auto 10 | reflexivity]|].
    split; [discriminate|].
    intros _. exists d, d1, d2. repeat split; try assumption.
    unfold readFile. rewrite lookup_insert_eq. reflexivity. }
  unfold main. destruct (all_given opts) eqn:Hg; cbn [negb].
  2:{ cbn. split; [reflexivity|].
      split; [split; [intros _; left; reflexivity | reflexivity]|].
      split; [split; [discriminate | intros (c & [])]|].
      split; [reflexivity | discriminate]. }
  destruct (initialize opts disk) as [d|e] eqn:Hi.
  2:{ apply (Hclose _ eq_refl). apply Hfail. apply Hno.
      intros x [<- | []]. eexists. reflexivity. }
  destruct (reserialize verbose d) as [d1|e] eqn:Hr.
  2:{ apply (Hclose _ eq_refl). apply Hfail. apply Hno.
      intros x [<- | [<- | []]]; eexists; reflexivity. }
  destruct (rewrite d1) as [d2|e] eqn:Hw.
  2:{ apply (Hclose _ eq_refl). apply Hfail. apply Hno.
      intros x [<- | [<- | [<- | []]]]; eexists; reflexivity. }
  assert (Hout : d_output d2 = opt (o_output opts)).
  { destruct (rewrite_keeps _ _ Hw) as [-> _].
    destruct (reserialize_keeps _ _ _ Hr) as [-> _].
    apply (initialize_keeps opts disk d). rewrite Hi. reflexivity. }
  unfold complete, writeFile. rewrite Hout.
  destruct (disk !! opt (o_output opts)) as [[c|]|] eqn:Hl.
  - apply (Hwritten d d1 d2 eq_refl eq_refl Hr Hw).
  - apply (Hclose _ eq_refl). cbn. repeat split; try discriminate.
    intros c H. repeat (destruct H as [H|H]; try discriminate H). contradiction.
  - apply (Hwritten d d1 d2 eq_refl eq_refl Hr Hw).
Qed.

(** A find pattern that is not an expression ends the run in its first
    stage, with the SyntaxError uncaught and nothing written. *)
Theorem invalid_pattern_aborts (opts : options) (verbose : bool)
    (disk : gmap string node) :
  all_given opts = true ->
  readFile disk (opt (o_input opts)) <> EmptyString ->
  newRegExp (opt (o_find opts)) true true = Throw SyntaxError ->
  main opts verbose disk = Run [Enter Initialize] disk (Uncaught SyntaxError).
Proof.
  intros Hg Hne Hre. unfold main. rewrite Hg. cbn [negb].
  unfold initialize. rewrite (is_empty_false _ Hne).
  unfold countMatches. cbn [default]. rewrite Hre. reflexivity.
Qed.

Lemma invalid_pattern_aborts_witness :
  let opts := Options (Some "in.sql"%string) (Some "out.sql"%string)
                (Some "(hello"%string) (Some "hi"%string) in
  let disk : gmap string node := {[ "in.sql"%string := File "x='hello';" ]} in
  main opts true disk = Run [Enter Initialize] disk (Uncaught SyntaxError).
Proof.
  intros opts disk. apply (invalid_pattern_aborts opts true disk).
  - reflexivity.
  - vm_compute. discriminate.
  - vm_compute. reflexivity.
Defined.

(** ** The scanner, in general *)

Lemma all_s_impl (p1 p2 : ascii -> bool) (s : string) :
  (forall c, p1 c = true -> p2 c = true) -> all_s p1 s = true -> all_s p2 s = true.
Proof.
  intros Hp. induction s as [|a s IH]; cbn [all_s]; [reflexivity|].
  intros H. apply andb_true_iff in H as [Ha Hs]. rewrite (Hp a Ha), (IH Hs). reflexivity.
Qed.

Lemma digit_is_dot (c : ascii) : cmatch digit c = true -> cmatch PDot c = true.
Proof.
  destruct c as [[] [] [] [] [] [] [] []]; intros H;
    first [reflexivity | discriminate H].
Qed.

Lemma m_star_one ml p x c :
  m ml (Star true (One p)) x c
  = repeat (m ml (One p)) (clear_caps (One p)) true (S (slen (rest x))) x c.
Proof. reflexivity. Qed.

(** Whatever [re2] matches holds no line terminator. *)
Lemma re2_pattern_inv pv s z :
  m false re2_pattern (State pv s []) Some = Some z ->
  all_s (cmatch PDot) s = true.
Proof.
  intros H. unfold re2_pattern in H. cbn [seq_of] in H.
  rewrite m_seq in H. apply m_bol_inv in H as [_ H].
  step_char H D s1 HD.
  step_char H a1 s2 Ha1. apply cmatch_char in Ha1 as ->.
  step_char H a2 s3 Ha2. apply cmatch_char in Ha2 as ->.
  rewrite m_seq, m_group in H. step_run H d ds s4 Hd Hds.
  step_char H a3 s5 Ha3. apply cmatch_char in Ha3 as ->.
  step_char H a4 s6 Ha4. apply cmatch_char in Ha4 as ->.
  rewrite m_seq, m_group, m_star_one in H.
  apply repeat_one_inv in H as (w & s7 & Hr & Hw & H).
  cbn [rest caps prev] in *. subst.
  step_char H a5 s8 Ha5. apply cmatch_char in Ha5 as ->.
  step_char H a6 s9 Ha6. apply cmatch_char in Ha6 as ->.
  apply m_eol_inv in H as [He _].
  unfold at_eol in He. cbn [rest] in He. destruct s9; [|discriminate He].
  cbn [all_s]. rewrite HD, (digit_is_dot d Hd). cbn [andb].
  change (cmatch PDot "s") with true. change (cmatch PDot ":") with true.
  cbn [andb]. rewrite all_s_app, (all_s_impl _ _ ds digit_is_dot Hds).
  cbn [all_s andb]. change (cmatch PDot ":") with true.
  change (cmatch PDot dq) with true. cbn [andb].
  rewrite all_s_app, Hw. reflexivity.
Qed.

Lemma re2_not_after_start :
  forall s c, search false re2_pattern (Some c) s = None.
Proof.
  assert (Hm : forall c s, m false re2_pattern (State (Some c) s []) Some = None).
  { intros c s. unfold re2_pattern. cbn [seq_of]. rewrite m_seq, m_bol. reflexivity. }
  induction s as [|a s IH]; intros c; cbn [search]; rewrite Hm; [reflexivity | apply IH].
Qed.

Lemma token_of_match_line_terminator (mt : string) :
  all_s (cmatch PDot) mt = false -> token_of_match mt = Throw TypeError.
Proof.
  intros H. unfold token_of_match, match_first, exec. cbn [re_multiline re_ast].
  destruct mt as [|a s]; [discriminate H|]. cbn [search].
  destruct (m false re2_pattern (State None (String a s) []) Some) as [z|] eqn:E.
  - apply re2_pattern_inv in E. congruence.
  - rewrite re2_not_after_start. reflexivity.
Qed.

Lemma token_of_match_result (D : ascii) (ds v : string) :
  cmatch delimiter D = true ->
  ds <> EmptyString -> all_s (cmatch digit) ds = true ->
  token_of_match (serialized D ds v)
  = if all_s (cmatch PDot) (serialized D ds v)
    then Ok (Token (serialized D ds v) (parseInt ds) v)
    else Throw TypeError.
Proof.
  intros HD Hn Hds.
  destruct (all_s (cmatch PDot) (serialized D ds v)) eqn:E.
  - apply token_of_match_serialized; try assumption.
    unfold serialized, serialized_then in E. simpl String.append in E.
    cbn [all_s] in E. rewrite !andb_true_iff in E. destruct E as (_ & _ & _ & E).
    rewrite all_s_app in E. apply andb_true_iff in E as [_ E].
    simpl String.append in E. cbn [all_s] in E.
    rewrite !andb_true_iff in E. destruct E as (_ & _ & E).
    rewrite all_s_app in E. apply andb_true_iff in E as [E _]. exact E.
  - apply token_of_match_line_terminator. exact E.
Qed.

Lemma mapM_throws {A B} (f : A -> result B) (e : error) (l : list A) :
  (forall a, In a l -> (exists b, f a = Ok b) \/ f a = Throw e) ->
  (exists a, In a l /\ f a = Throw e) ->
  mapM f l = Throw e.
Proof.
  induction l as [|a l IH]; intros Hall (a0 & Hin & Ha0); [destruct Hin|].
  cbn [mapM]. destruct (Hall a (or_introl eq_refl)) as [(b & Hb) | Hb].
  - rewrite Hb. cbn [rbind]. rewrite IH; [reflexivity | |].
    + intros a' Ha'. apply Hall. right. exact Ha'.
    + destruct Hin as [<- | Hin]; [congruence|]. exists a0. auto.
  - rewrite Hb. reflexivity.
Qed.

(** The scanner throws, and then a TypeError, exactly when some text that
    [re] matches holds a line terminator; otherwise it returns tokens. *)
Theorem scanner_throws_iff_line_terminator (sql : string) :
  let matches := default [] (match_global (MkRegExp re_pattern 2 true false) sql) in
  (findSerializedStrings sql = Throw TypeError
   <-> exists mt, In mt matches /\ all_s (cmatch PDot) mt = false)
  /\ (forall e, findSerializedStrings sql = Throw e -> e = TypeError)
  /\ ((forall mt, In mt matches -> all_s (cmatch PDot) mt = true) ->
      exists tokens, findSerializedStrings sql = Ok tokens).
Proof.
  intros matches.
  assert (Hgood : (forall mt, In mt matches -> all_s (cmatch PDot) mt = true) ->
                  exists tokens, findSerializedStrings sql = Ok tokens).
  { intros H. destruct (scanner_returns_matches sql H) as (tokens & Ht & _).
    exists tokens. exact Ht. }
  assert (Hbad : (exists mt, In mt matches /\ all_s (cmatch PDot) mt = false) ->
                 findSerializedStrings sql = Throw TypeError).
  { intros (mt & Hin & Hmt). unfold findSerializedStrings. fold matches.
    apply mapM_throws.
    - intros a Ha.
      destruct (matches_are_serialized sql a Ha) as (D & ds & v & -> & HD & Hn & Hds & _).
      rewrite (token_of_match_result D ds v HD Hn Hds).
      destruct (all_s (cmatch PDot) (serialized D ds v)); eauto.
    - exists mt. split; [exact Hin|]. apply token_of_match_line_terminator. exact Hmt. }
  assert (Hdec : (forall mt, In mt matches -> all_s (cmatch PDot) mt = true)
                 \/ (exists mt, In mt matches /\ all_s (cmatch PDot) mt = false)).
  { clear. induction matches as [|a l IH]; [left; intros mt []|].
    destruct (all_s (cmatch PDot) a) eqn:Ha.
    - destruct IH as [IH | (mt & Hin & Hmt)].
      + left. intros mt [<- | Hin]; auto.
      + right. exists mt. split; [right; exact Hin | exact Hmt].
    - right. exists a. split; [left; reflexivity | exact Ha]. }
  split; [split; [|exact Hbad]|split; [|exact Hgood]].
  - intros Hthrow. destruct Hdec as [Hall | Hex]; [|exact Hex].
    destruct (Hgood Hall) as (tokens & Ht). congruence.
  - intros e He. destruct Hdec as [Hall | Hex].
    + destruct (Hgood Hall) as (tokens & Ht). congruence.
    + rewrite (Hbad Hex) in He. congruence.
Qed.

(** What the scanner returns: one token per text that [re] matches, in
    order; the source is that text, a delimiter followed by a serialized
    string; the length is the number its digits write, when that is a number
    held exactly; the value is the text between the quotes, not empty,
    without a double quote and without a line terminator. *)
Theorem scanned_tokens (sql : string) (tokens : list token) :
  findSerializedStrings sql = Ok tokens ->
  Forall2 (fun mt t =>
      source t = mt
      /\ exists D ds v,
           mt = serialized D ds v /\ cmatch delimiter D = true
           /\ ds <> EmptyString /\ all_s (cmatch digit) ds = true
           /\ (safe_integer (parseInt ds) -> chars t = parseInt ds)
           /\ value t = v
           /\ v <> EmptyString /\ all_s (cmatch not_quote) v = true
           /\ all_s (cmatch PDot) v = true)
    (default [] (match_global (MkRegExp re_pattern 2 true false) sql)) tokens.
Proof.
  unfold findSerializedStrings.
  generalize (matches_are_serialized sql).
  generalize (default [] (match_global (MkRegExp re_pattern 2 true false) sql)).
  intros l. revert tokens. induction l as [|mt l IH]; intros tokens Hshape H.
  - injection H as <-. constructor.
  - cbn [mapM] in H.
    destruct (Hshape mt (or_introl eq_refl))
      as (D & ds & v & -> & HD & Hn & Hds & Hnv & Hv).
    rewrite (token_of_match_result D ds v HD Hn Hds) in H.
    destruct (all_s (cmatch PDot) (serialized D ds v)) eqn:Hdot; [|discriminate H].
    cbn [rbind] in H.
    destruct (mapM token_of_match l) as [ts|e] eqn:Hl; [|discriminate H].
    cbn [rbind] in H. injection H as <-.
    constructor.
    + split; [reflexivity|]. exists D, ds, v.
      repeat (split; [first [assumption | reflexivity | (intros _; reflexivity)]|]).
      unfold serialized, serialized_then in Hdot. simpl String.append in Hdot.
      cbn [all_s] in Hdot. rewrite !andb_true_iff in Hdot.
      destruct Hdot as (_ & _ & _ & E).
      rewrite all_s_app in E. apply andb_true_iff in E as [_ E].
      simpl String.append in E. cbn [all_s] in E.
      rewrite !andb_true_iff in E. destruct E as (_ & _ & E).
      rewrite all_s_app in E. apply andb_true_iff in E as [E _]. exact E.
    + apply IH; [|reflexivity]. intros mt' Hin. apply Hshape. right. exact Hin.
Qed.

Lemma scanned_tokens_witness :
  Forall2 (fun mt t =>
      source t = mt
      /\ exists D ds v,
           mt = serialized D ds v /\ cmatch delimiter D = true
           /\ ds <> EmptyString /\ all_s (cmatch digit) ds = true
           /\ (safe_integer (parseInt ds) -> chars t = parseInt ds)
           /\ value t = v
           /\ v <> EmptyString /\ all_s (cmatch not_quote) v = true
           /\ all_s (cmatch PDot) v = true)
    (default [] (match_global (MkRegExp re_pattern 2 true false)
                   ("a:1:{i:0;s:5:" +:+ q +:+ "hello" +:+ q +:+ ";}")))
    [Token (";s:5:" +:+ q +:+ "hello" +:+ q +:+ ";") 5 "hello"].
Proof.
  apply (scanned_tokens ("a:1:{i:0;s:5:" +:+ q +:+ "hello" +:+ q +:+ ";}")).
  vm_compute. reflexivity.
Defined.

(** ** Matches do not overlap *)











(** ** Patterns made of literal characters *)

Lemma literal_syntax (c : ascii) : is_literal c = true -> syntax_char c = SLit.
Proof. unfold is_literal. destruct (syntax_char c); congruence. Qed.

Lemma push_literals_fields (s : string) :
  forall f, f_kind (push_literals s f) = f_kind f
            /\ f_alts (push_literals s f) = f_alts f
            /\ f_terms (push_literals s f) = rev (literal_terms s) ++ f_terms f.
Proof.
  induction s as [|c s IH]; intros f; cbn [push_literals literal_terms].
  - auto.
  - destruct (IH (push_atom (One (PChar c)) f)) as (Hk & Ha & Ht).
    rewrite Hk, Ha, Ht. cbn [push_atom f_kind f_alts f_terms rev].
    rewrite <- app_assoc. auto.
Qed.

Lemma parse_loop_literal (s : string) :
  forall n cur,
    all_s is_literal s = true ->
    parse_loop s n cur [] MNormal = Ok (frame_regex (push_literals s cur), n).
Proof.
  induction s as [|c s IH]; intros n cur H; [reflexivity|].
  cbn [all_s] in H. apply andb_true_iff in H as [Hc Hs].
  cbn [parse_loop push_literals]. rewrite (literal_syntax c Hc).
  apply IH. exact Hs.
Qed.

Lemma parse_literal (s : string) :
  all_s is_literal s = true -> parse s = Ok (seq_of (literal_terms s), 0).
Proof.
  intros H. unfold parse. rewrite (parse_loop_literal s 0 _ H).
  unfold frame_regex.
  destruct (push_literals_fields s (new_frame FTop)) as (_ & Ha & Ht).
  rewrite Ha, Ht. cbn [new_frame f_alts f_terms].
  rewrite app_nil_r, rev_involutive. reflexivity.
Qed.

Lemma m_seq_of_cons ml r l x c :
  m ml (seq_of (r :: l)) x c = m ml r x (fun y => m ml (seq_of l) y c).
Proof. destruct l; reflexivity. Qed.

(** The pattern of a literal text matches that text, where it stands. *)
Lemma m_literal ml (key : string) :
  forall x c,
    m ml (seq_of (literal_terms key)) x c
    = match strip key (rest x) with
      | Some s' => c (State (last_char (prev x) key) s' (caps x))
      | None => None
      end.
Proof.
  induction key as [|a key IH]; intros [pv s cs] c.
  - reflexivity.
  - cbn [literal_terms]. rewrite m_seq_of_cons. cbn [rest prev caps strip last_char].
    destruct s as [|ch s]; [reflexivity|].
    rewrite m_one. cbn [cmatch]. destruct (Ascii.eqb a ch) eqn:E; [|reflexivity].
    apply Ascii.eqb_eq in E. subst ch. rewrite IH. reflexivity.
Qed.

Lemma GetSubstitution_plain mt before after cs (template : string) :
  all_s not_dollar template = true ->
  GetSubstitution mt before after cs template = template.
Proof.
  induction template as [|c t IH]; [reflexivity|].
  cbn [all_s]. intros H. apply andb_true_iff in H as [Hc Ht].
  cbn [GetSubstitution]. unfold not_dollar in Hc. rewrite Hc, (IH Ht). reflexivity.
Qed.

Lemma search_literal ml (key new : string) :
  forall s pre pv,
    match search ml (seq_of (literal_terms key)) pv s with
    | Some res =>
      pre +:+ literal_replace key new s
      = consumed (pre +:+ s) (m_start res) +:+ new +:+ rest (m_end res)
    | None => literal_replace key new s = s
    end.
Proof.
  induction s as [|c s IH]; intros pre pv; cbn [search literal_replace];
    rewrite m_literal; cbn [rest].
  - destruct (strip key EmptyString) as [s'|]; [|reflexivity].
    cbn [m_start m_end rest]. rewrite consumed_app. reflexivity.
  - destruct (strip key (String c s)) as [s'|].
    + cbn [m_start m_end rest]. rewrite consumed_app. reflexivity.
    + specialize (IH (pre +:+ String c EmptyString) (Some c)).
      destruct (search ml (seq_of (literal_terms key)) (Some c) s) as [res|].
      * rewrite app_assoc_s in IH. cbn [String.append] in IH.
        rewrite app_assoc_s in IH. exact IH.
      * rewrite IH. reflexivity.
Qed.

(** With a literal pattern and a replacement without a dollar sign,
    [replace] without [g] replaces the first occurrence of the text. *)
Lemma str_replace_literal (key new sql : string) (ml : bool) :
  all_s not_dollar new = true ->
  str_replace sql (MkRegExp (seq_of (literal_terms key)) 0 false ml) new
  = literal_replace key new sql.
Proof.
  intros Hnew. unfold str_replace, exec. cbn [re_global re_multiline re_ast re_groups].
  pose proof (search_literal ml key new sql EmptyString None) as H.
  destruct (search ml (seq_of (literal_terms key)) None sql) as [res|].
  - cbn [splice]. rewrite (GetSubstitution_plain _ _ _ _ _ Hnew).
    cbn [String.append] in H. symmetry. exact H.
  - cbn [splice]. symmetry. exact H.
Qed.

Lemma string_of_uint_digits (d : Decimal.uint) :
  all_s is_digit (NilEmpty.string_of_uint d) = true.
Proof. induction d; cbn [NilEmpty.string_of_uint all_s]; auto. Qed.

Lemma toString_digits (n : N) : all_s is_digit (toString n) = true.
Proof. apply string_of_uint_digits. Qed.

Lemma digit_is_literal (c : ascii) : is_digit c = true -> is_literal c = true.
Proof.
  destruct c as [[] [] [] [] [] [] [] []]; intros H;
    first [reflexivity | discriminate H].
Qed.

Lemma digit_not_dollar (c : ascii) : is_digit c = true -> not_dollar c = true.
Proof.
  destruct c as [[] [] [] [] [] [] [] []]; intros H;
    first [reflexivity | discriminate H].
Qed.

(** C9 the other way round: when the two lengths of a planned string are
    numbers held exactly, so that they are written with their digits, when
    its value is made of characters that stand for themselves in a pattern,
    and its rewritten source text holds no dollar sign, the patch replaces
    the first occurrence of the text [s:N:Q value Q] by the new text, as it
    is. *)
Theorem literal_patch_is_verbatim (sql : string) (p : planned) :
  safe_integer (chars (p_token p)) ->
  safe_integer (N.of_nat (rewriteChars p)) ->
  all_s is_literal (value (p_token p)) = true ->
  all_s not_dollar (js_string (rewriteValue p)) = true ->
  patch sql p = Ok (literal_replace (search_key p) (replacement p) sql).
Proof.
  intros _ _ Hv Hr. unfold patch, newRegExp.
  rewrite parse_literal.
  - cbn [rbind fst snd]. rewrite str_replace_literal; [reflexivity|].
    unfold replacement. simpl String.append. cbn [all_s].
    rewrite all_s_app, (all_s_impl _ _ _ digit_not_dollar (toString_digits _)).
    simpl String.append. cbn [all_s]. rewrite all_s_app, Hr. reflexivity.
  - unfold search_key. simpl String.append. cbn [all_s].
    rewrite all_s_app, (all_s_impl _ _ _ digit_is_literal (toString_digits _)).
    simpl String.append. cbn [all_s]. rewrite all_s_app, Hv. reflexivity.
Qed.

Lemma literal_patch_is_verbatim_witness :
  patch ("x;s:5:" +:+ q +:+ "hello" +:+ q +:+ ";")
    (Planned (Token (";s:5:" +:+ q +:+ "hello" +:+ q +:+ ";") 5 "hello") 2
       (Some "hi"%string))
  = Ok ("x;s:2:" +:+ q +:+ "hi" +:+ q +:+ ";").
Proof.
  apply (literal_patch_is_verbatim ("x;s:5:" +:+ q +:+ "hello" +:+ q +:+ ";")
           (Planned (Token (";s:5:" +:+ q +:+ "hello" +:+ q +:+ ";") 5 "hello") 2
              (Some "hi"%string)));
    first [reflexivity | (vm_compute; discriminate)].
Defined.

(** ** The verbose option *)

Lemma verbose_pattern_parsed : parse "^1|(true)$" = Ok (verbose_pattern, 1).
Proof. reflexivity. Qed.

Lemma strip_whole (e : string) :
  forall s, match strip e s with Some EmptyString => true | _ => false end
            = String.eqb s e.
Proof.
  induction e as [|a e IH]; intros s.
  - destruct s; reflexivity.
  - destruct s as [|b s]; [reflexivity|]. cbn [strip String.eqb].
    rewrite (Ascii.eqb_sym b a). destruct (Ascii.eqb a b); [apply IH | reflexivity].
Qed.

Lemma m_alt ml r1 r2 x c :
  m ml (Alt r1 r2) x c
  = match m ml r1 x c with Some z => Some z | None => m ml r2 x c end.
Proof. reflexivity. Qed.

Lemma m_verbose pv s :
  found (m false verbose_pattern (State pv s []) Some)
  = (match pv with None => starts_with "1" s | Some _ => false end)
    || String.eqb s "true".
Proof.
  unfold verbose_pattern. rewrite m_alt.
  assert (H2 : found (m false
                 (Seq (Group 1 (seq_of [One (PChar "t"); One (PChar "r");
                                        One (PChar "u"); One (PChar "e")])) Eol)
                 (State pv s []) Some)
               = String.eqb s "true").
  { rewrite m_seq, m_group.
    change (seq_of [One (PChar "t"); One (PChar "r"); One (PChar "u"); One (PChar "e")])
      with (seq_of (literal_terms "true")).
    rewrite m_literal. cbn [rest]. rewrite <- strip_whole.
    destruct (strip "true" s) as [[|c s']|]; reflexivity. }
  rewrite m_seq, m_bol. unfold at_bol. cbn [prev]. destruct pv as [c|].
  - cbn [andb orb]. exact H2.
  - unfold starts_with. destruct s as [|c s].
    + cbn [strip orb]. exact H2.
    + rewrite m_one. cbn [cmatch strip]. destruct (Ascii.eqb "1" c).
      * reflexivity.
      * cbn [orb]. exact H2.
Qed.

Lemma search_verbose :
  forall s pv,
    found (option_map m_end (search false verbose_pattern pv s))
    = (match pv with None => starts_with "1" s | Some _ => false end)
      || ends_with "true" s.
Proof.
  induction s as [|c s IH]; intros pv; cbn [search ends_with].
  - pose proof (m_verbose pv EmptyString) as Hm.
    change (String.eqb EmptyString "true") with false in *.
    rewrite ?orb_false_r in *.
    destruct (m false verbose_pattern (State pv EmptyString []) Some); exact Hm.
  - pose proof (m_verbose pv (String c s)) as Hm. rewrite orb_assoc.
    destruct (m false verbose_pattern (State pv (String c s) []) Some).
    + cbn [found option_map m_end] in *. rewrite <- Hm. reflexivity.
    + cbn [found] in Hm. rewrite <- Hm. rewrite IH. reflexivity.
Qed.

(** The verbose option is on exactly when its value, in lower case and
    without the white space around it, starts with [1] or ends with
    [true]; without a value it is off. *)
Theorem verbose_option_accepts (value : option string) :
  verbose_option value
  = (let v := trim (toLowerCase (default EmptyString value)) in
     starts_with "1" v || ends_with "true" v).
Proof.
  unfold verbose_option, test, exec. cbn [re_multiline re_ast].
  pose proof (search_verbose (trim (toLowerCase (default EmptyString value))) None) as H.
  cbv zeta.
  destruct (search false verbose_pattern None _); cbn [found option_map] in H; exact H.
Qed.

(** ** Times *)

Lemma time_parts_sum (seconds : Z) :
  match time_parts seconds with
  | (days, hours, minutes, secs) =>
    (days * 86400 + hours * 3600 + minutes * 60 + secs = Z.abs_N seconds)%N
  end.
Proof.
  unfold time_parts. generalize (Z.abs_N seconds). intros n.
  assert (Hsub : forall a k : N, k <> 0%N -> (a - a / k * k = a mod k)%N).
  { intros a k Hk. pose proof (N.div_mod a k Hk). pose proof (N.le_0_l (a mod k)).
    nia. }
  rewrite (Hsub n 86400%N) by discriminate.
  pose proof (N.mod_lt n 86400 ltac:(discriminate)) as H2.
  pose proof (N.div_mod n 86400 ltac:(discriminate)) as H1.
  set (r1 := (n mod 86400)%N) in *.
  assert (Hh : (r1 / 3600 < 24)%N) by (apply N.Div0.div_lt_upper_bound; lia).
  rewrite (N.mod_small (r1 / 3600) 24 Hh).
  rewrite (Hsub r1 3600%N) by discriminate.
  pose proof (N.mod_lt r1 3600 ltac:(discriminate)) as H4.
  pose proof (N.div_mod r1 3600 ltac:(discriminate)) as H3.
  set (r2 := (r1 mod 3600)%N) in *.
  assert (Hm : (r2 / 60 < 60)%N) by (apply N.Div0.div_lt_upper_bound; lia).
  rewrite (N.mod_small (r2 / 60) 60 Hm).
  rewrite (Hsub r2 60%N) by discriminate.
  pose proof (N.mod_lt r2 60 ltac:(discriminate)) as H6.
  pose proof (N.div_mod r2 60 ltac:(discriminate)) as H5.
  rewrite (N.mod_small (r2 mod 60) 60 H6).
  set (r3 := (r2 mod 60)%N) in *.
  set (q1 := (n / 86400)%N) in *. set (q2 := (r1 / 3600)%N) in *.
  set (q3 := (r2 / 60)%N) in *.
  lia.
Qed.

(** The four numbers of [formatSecondsIntoTimeRemaining] add up to the
    absolute value of the seconds given; hours stay below 24, minutes and
    seconds below 60. *)
Theorem time_parts_recombine (seconds : Z) :
  match time_parts seconds with
  | (days, hours, minutes, secs) =>
    (days * 86400 + hours * 3600 + minutes * 60 + secs = Z.abs_N seconds)%N
    /\ (hours < 24)%N /\ (minutes < 60)%N /\ (secs < 60)%N
  end.
Proof.
  pose proof (time_parts_sum seconds) as Hsum. unfold time_parts in *.
  split; [exact Hsum|].
  repeat split; apply N.mod_lt; discriminate.
Qed.

Lemma piece_not_empty (n : N) (unit s : string) :
  unit <> EmptyString -> piece n unit = Some s -> s <> EmptyString.
Proof.
  unfold piece. destruct (n =? 0)%N; [discriminate|].
  intros Hu H. injection H as <-.
  destruct (toString n); [exact Hu | discriminate].
Qed.

Lemma concat_not_empty (sep a : string) (l : list string) :
  a <> EmptyString -> String.concat sep (a :: l) <> EmptyString.
Proof.
  intros Ha. destruct a as [|c a]; [congruence|].
  destruct l; cbn [String.concat]; simpl; discriminate.
Qed.

(** The text is the same for a number of seconds and for its opposite, and
    it is empty for 0 only. *)
Theorem format_time_sign_and_zero (seconds : Z) :
  formatSecondsIntoTimeRemaining (- seconds) = formatSecondsIntoTimeRemaining seconds
  /\ (formatSecondsIntoTimeRemaining seconds = EmptyString <-> seconds = 0%Z).
Proof.
  split.
  - unfold formatSecondsIntoTimeRemaining, time_parts.
    rewrite Zabs2N.inj_opp. reflexivity.
  - split; [|intros ->; reflexivity].
    intros H. pose proof (time_parts_sum seconds) as Hsum.
    unfold formatSecondsIntoTimeRemaining in H.
    destruct (time_parts seconds) as [[[d h] mi] s].
    assert (Hz : d = 0%N /\ h = 0%N /\ mi = 0%N /\ s = 0%N).
    { destruct (piece d "d ") as [pd|] eqn:Hd.
      { exfalso. revert H. cbn [List.map compact List.concat app].
        apply concat_not_empty. apply (piece_not_empty d "d "); [discriminate | exact Hd]. }
      destruct (piece h "h ") as [ph|] eqn:Hh.
      { exfalso. revert H. cbn [List.map compact List.concat app].
        apply concat_not_empty. apply (piece_not_empty h "h "); [discriminate | exact Hh]. }
      destruct (piece mi "m ") as [pm|] eqn:Hm.
      { exfalso. revert H. cbn [List.map compact List.concat app].
        apply concat_not_empty. apply (piece_not_empty mi "m "); [discriminate | exact Hm]. }
      destruct (piece s "s") as [ps|] eqn:Hs.
      { exfalso. revert H. cbn [List.map compact List.concat app].
        apply concat_not_empty. apply (piece_not_empty s "s"); [discriminate | exact Hs]. }
      unfold piece in Hd, Hh, Hm, Hs.
      destruct (N.eqb_spec d 0), (N.eqb_spec h 0), (N.eqb_spec mi 0), (N.eqb_spec s 0);
        try discriminate. auto. }
    destruct Hz as (-> & -> & -> & ->). lia.
Qed.

(** ** Numbers with commas *)

Lemma without_commas_commas :
  forall s pv,
    all_s (fun c => negb (Ascii.eqb c ",")) s = true ->
    without_commas (commas pv s) = s.
Proof.
  induction s as [|c s IH]; intros pv H; cbn [commas].
  - destruct (not_boundary pv EmptyString && triples EmptyString); reflexivity.
  - cbn [all_s] in H. apply andb_true_iff in H as [Hc Hs].
    apply negb_true_iff in Hc.
    destruct (not_boundary pv (String c s) && triples (String c s));
      cbn [String.append without_commas]; rewrite ?Ascii.eqb_refl, Hc, (IH _ Hs);
      reflexivity.
Qed.

Lemma digit_not_comma (c : ascii) : is_digit c = true -> negb (Ascii.eqb c ",") = true.
Proof.
  destruct c as [[] [] [] [] [] [] [] []]; intros H;
    first [reflexivity | discriminate H].
Qed.

(** Taking the commas out of [withCommas(num)] gives the digits of [num],
    for a number held exactly. *)
Theorem withCommas_digits (num : N) :
  safe_integer num ->
  without_commas (withCommas num) = toString num.
Proof.
  intros _. unfold withCommas. apply without_commas_commas.
  apply (all_s_impl _ _ _ digit_not_comma (toString_digits num)).
Qed.

Lemma withCommas_digits_witness :
  without_commas (withCommas 1234567) = "1234567"%string.
Proof.
  apply (withCommas_digits 1234567). vm_compute. discriminate.
Defined.

Lemma digit_is_word (c : ascii) : is_digit c = true -> is_word c = true.
Proof. intros H. unfold is_word. rewrite H. rewrite orb_true_r. reflexivity. Qed.

Lemma triples_digits :
  forall s, all_s is_digit s = true ->
    forall a b, is_digit a = true -> is_digit b = true ->
      triples s = negb (is_empty s) && Nat.eqb (slen s mod 3) 0
      /\ triples (String a s) = Nat.eqb (slen (String a s) mod 3) 0
      /\ triples (String a (String b s)) = Nat.eqb (slen (String a (String b s)) mod 3) 0.
Proof.
  induction s as [|c s IH]; intros H a b Ha Hb.
  - repeat split; reflexivity.
  - cbn [all_s] in H. apply andb_true_iff in H as [Hc Hs].
    destruct (IH Hs c c Hc Hc) as (H0 & _).
    destruct (IH Hs c b Hc Hb) as (_ & H1 & _).
    destruct (IH Hs a c Ha Hc) as (_ & _ & H2).
    split; [rewrite H1; reflexivity|]. split; [rewrite H2; reflexivity|].
    cbn [triples]. rewrite Ha, Hb, Hc. cbn [andb].
    destruct s as [|d s].
    + reflexivity.
    + cbn [first_char digit_at]. cbn [all_s] in Hs.
      apply andb_true_iff in Hs as [Hd _]. rewrite Hd. cbn [negb orb].
      rewrite H0. cbn [is_empty negb andb].
      change (slen (String a (String b (String c (String d s)))))
        with (3 + slen (String d s)).
      replace (3 + slen (String d s)) with (slen (String d s) + 1 * 3) by lia.
      rewrite Nat.Div0.mod_add. reflexivity.
Qed.

Lemma triples_three_more (s : string) (a b c : ascii) :
  all_s is_digit s = true -> s <> EmptyString ->
  is_digit a = true -> is_digit b = true -> is_digit c = true ->
  triples (s +:+ String a (String b (String c EmptyString))) = triples s.
Proof.
  intros Hs Hne Ha Hb Hc.
  assert (Hall : all_s is_digit (s +:+ String a (String b (String c EmptyString))) = true).
  { rewrite all_s_app, Hs. cbn [all_s]. rewrite Ha, Hb, Hc. reflexivity. }
  destruct (triples_digits _ Hall a a Ha Ha) as (-> & _).
  destruct (triples_digits _ Hs a a Ha Ha) as (-> & _).
  rewrite slen_app. cbn [slen].
  replace (slen s + 3) with (slen s + 1 * 3) by lia. rewrite Nat.Div0.mod_add.
  destruct s as [|x s]; [congruence | reflexivity].
Qed.

Lemma commas_last_three_after (a b c : ascii) :
  is_digit a = true -> is_digit b = true -> is_digit c = true ->
  forall s pv,
    all_s is_digit s = true -> s <> EmptyString ->
    commas pv (s +:+ String a (String b (String c EmptyString)))
    = commas pv s +:+ "," +:+ String a (String b (String c EmptyString)).
Proof.
  intros Ha Hb Hc. induction s as [|x s IH]; intros pv Hs Hne; [congruence|].
  pose proof (triples_three_more (String x s) a b c Hs Hne Ha Hb Hc) as Ht.
  cbn [all_s] in Hs. apply andb_true_iff in Hs as [Hx Hs].
  cbn [String.append] in *. cbn [commas]. rewrite Ht.
  assert (Hnb : not_boundary pv (String x (s +:+ String a (String b (String c EmptyString))))
                = not_boundary pv (String x s)) by reflexivity.
  rewrite Hnb. rewrite app_assoc_s. f_equal. cbn [String.append]. f_equal.
  destruct s as [|y s].
  - cbn [String.append commas triples first_char digit_at].
    rewrite Ha, Hb, Hc. unfold not_boundary. cbn [word_at first_char].
    rewrite (digit_is_word x Hx), (digit_is_word a Ha), (digit_is_word b Hb),
      (digit_is_word c Hc).
    reflexivity.
  - apply IH; [exact Hs | discriminate].
Qed.

(** Where the commas go in a number: none when it has three digits or
    fewer, and otherwise one before its last three digits and, before that,
    those of the digits in front. *)
Theorem commas_group_by_three :
  (forall s, all_s is_digit s = true -> slen s <= 3 -> commas None s = s)
  /\ (forall s a b c,
        all_s is_digit s = true -> s <> EmptyString ->
        is_digit a = true -> is_digit b = true -> is_digit c = true ->
        commas None (s +:+ String a (String b (String c EmptyString)))
        = commas None s +:+ "," +:+ String a (String b (String c EmptyString))).
Proof.
  split.
  - intros s Hs Hlen.
    destruct s as [|a [|b [|c [|d s]]]]; [reflexivity| | | |simpl in Hlen; lia];
      cbn [all_s] in Hs; rewrite ?andb_true_iff in Hs.
    + destruct Hs as (Ha & _). cbn [commas triples]. unfold not_boundary.
      cbn [word_at first_char]. rewrite (digit_is_word a Ha). reflexivity.
    + destruct Hs as (Ha & Hb & _). cbn [commas triples]. unfold not_boundary.
      cbn [word_at first_char]. rewrite (digit_is_word a Ha), (digit_is_word b Hb).
      reflexivity.
    + destruct Hs as (Ha & Hb & Hc & _). cbn [commas triples]. unfold not_boundary.
      cbn [word_at first_char].
      rewrite (digit_is_word a Ha), (digit_is_word b Hb), (digit_is_word c Hc).
      rewrite !andb_false_r. reflexivity.
  - intros s a b c Hs Hne Ha Hb Hc.
    apply commas_last_three_after; assumption.
Qed.

Lemma commas_group_by_three_witness :
  commas None ("1234" +:+ "567")%string
  = (commas None "1234" +:+ "," +:+ "567")%string.
Proof.
  apply (proj2 commas_group_by_three "1234"%string "5" "6" "7");
    first [reflexivity | discriminate].
Defined.

(** ** The plain pass on a literal pattern *)

Lemma strip_some (key : string) :
  forall s s', strip key s = Some s' -> s = key +:+ s'.
Proof.
  induction key as [|a key IH]; intros s s' H; cbn [strip] in H.
  - injection H as <-. reflexivity.
  - destruct s as [|b s]; [discriminate|].
    destruct (Ascii.eqb_spec a b) as [<-|]; [|discriminate].
    cbn [String.append]. f_equal. apply IH. exact H.
Qed.

Lemma replace_all_skip (key new : string) :
  forall u s, replace_all_from key new (slen u) (u +:+ s) = replace_all_from key new 0 s.
Proof.
  induction u as [|c u IH]; intros s; cbn [slen String.append].
  - reflexivity.
  - cbn [replace_all_from]. apply IH.
Qed.

Lemma replace_all_empty (key new : string) (k : nat) :
  replace_all_from key new k EmptyString = EmptyString.
Proof. reflexivity. Qed.

Section LiteralAll.

Variables (ml : bool) (k0 : ascii) (key' new : string).

Let key := String k0 key'.
Let r := seq_of (literal_terms key).

Lemma search_literal_all :
  forall s pv,
    match search ml r pv s with
    | Some res =>
      exists pre,
        s = pre +:+ m_start res
        /\ replace_all_from key new 0 s
           = pre +:+ new +:+ replace_all_from key new 0 (rest (m_end res))
        /\ slen (rest (m_end res)) < slen (m_start res)
    | None => replace_all_from key new 0 s = s
    end.
Proof.
  induction s as [|c s IH]; intros pv; cbn [search]; unfold r; rewrite m_literal;
    cbn [rest].
  - reflexivity.
  - destruct (strip key (String c s)) as [s'|] eqn:E.
    + cbn [m_start m_end rest]. exists EmptyString.
      split; [reflexivity|]. cbn [replace_all_from]. rewrite E.
      apply strip_some in E. unfold key in E. cbn [String.append] in E.
      injection E as -> ->. cbn [String.append]. split.
      * f_equal. replace (slen key - 1) with (slen key') by (unfold key; simpl; lia).
        apply replace_all_skip.
      * cbn [slen]. rewrite slen_app. lia.
    + specialize (IH (Some c)). fold r in IH |- *.
      destruct (search ml r (Some c) s) as [res|].
      * destruct IH as (pre & Hs & Hr & Hlen). exists (String c pre).
        cbn [String.append replace_all_from]. rewrite E, <- Hs, Hr. auto.
      * cbn [replace_all_from]. rewrite E, IH. reflexivity.
Qed.

Lemma splice_literal_all (input : string) :
  all_s not_dollar new = true ->
  forall fuel s pv,
    slen s < fuel ->
    splice input s 0 new (search_all fuel ml r pv s) = replace_all_from key new 0 s.
Proof.
  intros Hnew. induction fuel as [|n IH]; intros s pv Hfuel; [lia|].
  rewrite search_all_step. pose proof (search_literal_all s pv) as H.
  destruct (search ml r pv s) as [res|].
  - destruct H as (pre & Hs & Hr & Hlen).
    replace (Nat.eqb (slen (m_start res)) (slen (rest (m_end res)))) with false
      by (symmetry; apply Nat.eqb_neq; lia).
    cbn [splice]. rewrite (GetSubstitution_plain _ _ _ _ _ Hnew).
    rewrite IH.
    + rewrite Hr. rewrite Hs at 1. rewrite consumed_app. reflexivity.
    + assert (slen s = slen pre + slen (m_start res))
        by (rewrite Hs at 1; apply slen_app). lia.
  - cbn [splice]. symmetry. exact H.
Qed.

End LiteralAll.

Lemma str_replace_literal_global (find new sql : string) :
  find <> EmptyString ->
  all_s not_dollar new = true ->
  str_replace sql (MkRegExp (seq_of (literal_terms find)) 0 true true) new
  = replace_all_from find new 0 sql.
Proof.
  intros Hne Hnew.
  unfold str_replace, exec_all. cbn [re_global re_multiline re_ast re_groups].
  destruct find as [|k0 key']; [congruence|].
  apply splice_literal_all; [exact Hnew | lia].
Qed.

(** When the find pattern is a non-empty text of characters that stand for
    themselves, and the replace string holds no dollar sign, the plain pass
    replaces every occurrence of the text, from left to right. *)
Theorem plain_pass_literal (d : data) :
  d_find d <> EmptyString ->
  all_s is_literal (d_find d) = true ->
  all_s not_dollar (d_replace d) = true ->
  rewrite d
  = Ok (with_sql (replace_all_from (d_find d) (d_replace d) 0 (d_sql d)) d).
Proof.
  intros Hne Hlit Hrep.
  rewrite (rewrite_with d (MkRegExp (seq_of (literal_terms (d_find d))) 0 true true)).
  - rewrite (str_replace_literal_global _ _ _ Hne Hrep). reflexivity.
  - unfold newRegExp. rewrite (parse_literal _ Hlit). reflexivity.
Qed.

Lemma plain_pass_literal_witness :
  rewrite (Data "x='hello'; y='hello';" EmptyString EmptyString "hello" "hi" 0)
  = Ok (Data "x='hi'; y='hi';" EmptyString EmptyString "hello" "hi" 0).
Proof.
  apply (plain_pass_literal
           (Data "x='hello'; y='hello';" EmptyString EmptyString "hello" "hi" 0));
    first [reflexivity | discriminate].
Defined.

(** ** The length that the planner records *)

(** The planner's expression matches a text of the shape of a serialized
    string, whatever its first and last characters on the line. *)
Lemma value_pattern_match c1 ds v c2 :
  cmatch PDot c1 = true ->
  ds <> EmptyString -> all_s (cmatch digit) ds = true ->
  v <> EmptyString -> all_s (cmatch not_quote) v = true ->
  cmatch PDot c2 = true ->
  m false value_pattern
    (State None (String c1 ("s:" +:+ ds +:+ ":" +:+ q +:+ v +:+ q +:+ String c2 EmptyString)) [])
    Some
  = Some (State (Some c2) EmptyString [(1, v)]).
Proof.
  intros H1 Hn Hds Hnv Hv H2.
  destruct ds as [|d ds]; [congruence|]. destruct v as [|b v]; [congruence|].
  cbn [all_s] in Hds, Hv.
  apply andb_true_iff in Hds as [Hd Hds]. apply andb_true_iff in Hv as [Hb Hv].
  unfold value_pattern. cbn [seq_of]. simpl String.append.
  rewrite m_seq, m_bol. cbn [at_bol prev].
  rewrite m_seq, m_one, H1.
  rewrite m_seq, m_one. simpl (cmatch _ _).
  rewrite m_seq, m_one. simpl (cmatch _ _).
  rewrite !Ascii.eqb_refl.
  rewrite m_seq.
  apply plus_one_run; [exact Hd | exact Hds | reflexivity |].
  cbn [rest caps prev].
  rewrite m_seq, m_one. simpl (cmatch _ _).
  rewrite m_seq, m_one. simpl (cmatch _ _).
  rewrite !Ascii.eqb_refl.
  rewrite m_seq, m_group.
  apply plus_one_run; [exact Hb | exact Hv | reflexivity |].
  cbn [rest caps prev].
  change (String b (v +:+ String dq (String c2 EmptyString)))
    with (String b v +:+ String dq (String c2 EmptyString)).
  rewrite consumed_app.
  rewrite m_seq, m_one. simpl (cmatch _ _). rewrite Ascii.eqb_refl.
  rewrite m_seq, m_one, H2. reflexivity.
Qed.

(** When the find pattern matches a string and the rewritten source text
    still has the shape of a serialized string on one line, the length that
    the planner records is the length of the value in the rewritten text. *)
Theorem planned_length_of_serialized (re re2 : RegExp) (replace_ : string)
    (s : token) (c1 c2 : ascii) (ds v : string) :
  test re (source s) = true ->
  str_replace (source s) re2 replace_
  = String c1 ("s:" +:+ ds +:+ ":" +:+ q +:+ v +:+ q +:+ String c2 EmptyString) ->
  cmatch PDot c1 = true ->
  ds <> EmptyString -> all_s (cmatch digit) ds = true ->
  v <> EmptyString -> all_s (cmatch not_quote) v = true ->
  cmatch PDot c2 = true ->
  rewriteChars (plan_string re re2 replace_ s) = slen v.
Proof.
  intros Ht Hrv H1 Hn Hds Hnv Hv H2. unfold plan_string. rewrite Ht, Hrv.
  cbn [rewriteChars]. unfold str_replace, exec.
  cbn [re_global re_multiline re_ast re_groups].
  rewrite (search_here _ _ _ _ _ (value_pattern_match c1 ds v c2 H1 Hn Hds Hnv Hv H2)).
  cbn [splice m_start m_end rest caps]. unfold captures. cbn [m_end caps].
  change (GetSubstitution _ _ _ (List.map (get_cap [(1, v)]) (seq 1 1)) "$1")
    with (v +:+ EmptyString).
  rewrite !slen_app. unfold consumed. rewrite Nat.sub_diag. cbn [take slen].
  destruct (String c1 _); cbn [take slen]; lia.
Qed.

Lemma planned_length_of_serialized_witness :
  rewriteChars
    (plan_string (MkRegExp (seq_of (literal_terms "hello")) 0 false false)
       (MkRegExp (seq_of (literal_terms "hello")) 0 true false) "goodbye"
       (Token (";s:5:" +:+ q +:+ "hello" +:+ q +:+ ";") 5 "hello"))
  = slen "goodbye".
Proof.
  apply (planned_length_of_serialized _ _ "goodbye"
           (Token (";s:5:" +:+ q +:+ "hello" +:+ q +:+ ";") 5 "hello")
           ";" ";" "5" "goodbye");
    first [reflexivity | discriminate].
Defined.

(** ** Documents without serialized strings *)

(** When the scanner finds no string in the document, and the find pattern
    is a non-empty literal text and the replace string holds no dollar sign,
    the whole pipeline is the replacement of every occurrence of the text. *)
Theorem pipeline_without_strings (verbose : bool) (sql find replace_ : string) :
  findSerializedStrings sql = Ok [] ->
  find <> EmptyString ->
  all_s is_literal find = true ->
  all_s not_dollar replace_ = true ->
  pipeline verbose sql find replace_ = Ok (replace_all_from find replace_ 0 sql).
Proof.
  intros Hscan Hne Hlit Hrep. unfold pipeline.
  assert (Hres : reserialize verbose (Data sql EmptyString EmptyString find replace_ 0)
                 = Ok (Data sql EmptyString EmptyString find replace_ 0)).
  { unfold reserialize. cbn [d_find d_sql d_replace].
    destruct (countMatches find sql None) as [n|e] eqn:Hc.
    - cbn [rbind]. destruct (Nat.eqb n 0); [reflexivity|].
      rewrite (no_strings_no_rewrite verbose sql find replace_
                 (MkRegExp (seq_of (literal_terms find)) 0 false false) Hscan).
      + reflexivity.
      + unfold newRegExp. rewrite (parse_literal _ Hlit). reflexivity.
    - exfalso. unfold countMatches, newRegExp in Hc. cbn [default] in Hc.
      rewrite (parse_literal _ Hlit) in Hc. discriminate Hc. }
  rewrite Hres. cbn [rbind].
  rewrite (rewrite_with (Data sql EmptyString EmptyString find replace_ 0)
             (MkRegExp (seq_of (literal_terms find)) 0 true true)).
  - cbn [d_sql d_replace with_sql]. rewrite (str_replace_literal_global _ _ _ Hne Hrep).
    reflexivity.
  - cbn [d_find]. unfold newRegExp. rewrite (parse_literal _ Hlit). reflexivity.
Qed.

Lemma pipeline_without_strings_witness :
  pipeline true ("UPDATE t SET x='hello' WHERE s:5:" +:+ q +:+ "hello" +:+ q +:+ ";")
    "hello" "goodbye"
  = Ok (replace_all_from "hello" "goodbye" 0
          ("UPDATE t SET x='hello' WHERE s:5:" +:+ q +:+ "hello" +:+ q +:+ ";")).
Proof.
  apply (pipeline_without_strings true
           ("UPDATE t SET x='hello' WHERE s:5:" +:+ q +:+ "hello" +:+ q +:+ ";")
           "hello" "goodbye");
    first [discriminate | vm_compute; reflexivity].
Defined.

Lemma verbose_agrees_on_full_plan_witness :
  rewriteSerializedSql true (";s:5:" +:+ q +:+ "hello" +:+ q +:+ ";") "hello" "hi"
  = rewriteSerializedSql false (";s:5:" +:+ q +:+ "hello" +:+ q +:+ ";") "hello" "hi".
Proof.
  apply (verbose_agrees_on_full_plan
           (";s:5:" +:+ q +:+ "hello" +:+ q +:+ ";") "hello" "hi"
           [Token (";s:5:" +:+ q +:+ "hello" +:+ q +:+ ";") 5 "hello"]
           (MkRegExp (seq_of (literal_terms "hello")) 0 false false)
           (MkRegExp (seq_of (literal_terms "hello")) 0 true false)).
  - vm_compute. reflexivity.
  - vm_compute. reflexivity.
  - vm_compute. reflexivity.
  - intros s [<- | []] _. vm_compute. discriminate.
Defined.
